(** * Memristor learning rules: a shallow embedding and its properties

    The development follows the two source files of the repository:

    - [memristor_learning/MemristorLearningRules.py]: the classes
      [MemristorLearningRule], [mHopfieldHebbian], [mOja], [mBCM] and [mPES],
      embedded in module [Rules];
    - [memristor_nengo/learning_rules.py]: the front end [mPES] and the
      operator [SimmPES] with its builder, embedded in module [Nengo].

    Conventions of the embedding:

    - Python floats are idealised.  The rules of [Rules] only use field
      operations, comparisons and rounding to the nearest integer, and are
      embedded over the rationals [Q], where they compute.  The operator of
      [Nengo] raises resistances to a real power and is embedded over the
      real numbers, extended with the IEEE special values that [**] and [/]
      produce at the boundary of their domain.  Rounding errors are not
      modelled, and [**] is the real power: the properties stated on
      [Nengo] are those that rounding leaves intact (shapes, raised
      exceptions, bounds, the device a sign selects), not those decided by
      the last bits of a float, such as how far one pulse moves a
      resistance.
    - A two-dimensional array is its shape and its elements; a
      one-dimensional array is a list.  Broadcasting, indexing and the
      shape checks of NumPy are written out, and a step either returns or
      raises.
    - The objects mutated by a step (the weights and devices of a rule, the
      signals of the operator) are passed in and returned.
    - The device class behind [self.memristors] is not part of the two
      source files; the rules are embedded over an arbitrary device.

    The file has three parts: the embedding, the vocabulary of the
    statements, and the properties. *)

From Stdlib Require Import List FinFun Arith Bool ZArith QArith Qround Qabs Reals Lra Lia.
From Stdlib Require Lqa.
Import ListNotations.

Close Scope Q_scope.
Close Scope R_scope.

(** * The embedding *)

(** ** The Python and NumPy run time *)

(** The exceptions a step can raise. *)
Inductive exn : Set :=
| ValueError
| IndexError
| ZeroDivisionError.

(** A computation either returns or raises. *)
Inductive res (A : Type) : Type :=
| Ok (a : A)
| Raise (e : exn).

Arguments Ok {A} a.
Arguments Raise {A} e.

Definition bind {A B : Type} (c : res A) (k : A -> res B) : res B :=
  match c with
  | Ok a => k a
  | Raise e => Raise e
  end.

Notation "x <- c ;; k" := (bind c (fun x => k))
  (at level 61, c at next level, right associativity).

(** A [for] loop whose body may raise. *)
Fixpoint for_each {A S : Type} (body : S -> A -> res S) (l : list A) (s : S) : res S :=
  match l with
  | [] => Ok s
  | a :: l' => s' <- body s a ;; for_each body l' s'
  end.

(** A two-dimensional [ndarray]: its shape and its elements. *)
Record mat (A : Type) : Type := Mat {
    nrows : nat;
    ncols : nat;
    get : nat -> nat -> A
  }.

Arguments Mat {A} nrows ncols get.
Arguments nrows {A} m.
Arguments ncols {A} m.
Arguments get {A} m j i.

Section Arrays.
Context {A : Type}.

(** An array literal, given by its rows. *)
Definition of_rows (d : A) (rows : list (list A)) : mat A :=
  Mat (length rows) (length (hd [] rows)) (fun j i => nth i (nth j rows []) d).

Definition in_range (m : mat A) (j i : nat) : bool :=
  (j <? nrows m) && (i <? ncols m).

(** [m[j, i]] with non-negative indices. *)
Definition getitem (m : mat A) (j i : nat) : res A :=
  if in_range m j i then Ok (get m j i) else Raise IndexError.

(** [m[j, i] = v], as a new array. *)
Definition setitem (m : mat A) (j i : nat) (v : A) : res (mat A) :=
  if in_range m j i
  then Ok (Mat (nrows m) (ncols m)
             (fun j' i' => if (j' =? j) && (i' =? i) then v else get m j' i'))
  else Raise IndexError.

(** [v[j]] on a one-dimensional array. *)
Definition getitem1 (v : list A) (j : nat) : res A :=
  match nth_error v j with
  | Some a => Ok a
  | None => Raise IndexError
  end.

(** [np.tile(v, (reps, 1))]: [reps] copies of the row [v]. *)
Definition tile_rows (d : A) (v : list A) (reps : nat) : mat A :=
  Mat reps (length v) (fun _ i => nth i v d).

(** [np.tile(np.expand_dims(v, axis=1), (1, reps))]: [reps] copies of the
    column [v]. *)
Definition tile_cols (d : A) (v : list A) (reps : nat) : mat A :=
  Mat (length v) reps (fun j _ => nth j v d).

(** [np.expand_dims(v, axis=1)]. *)
Definition column (d : A) (v : list A) : mat A :=
  Mat (length v) 1 (fun j _ => nth j v d).
End Arrays.

(** The length of a broadcast axis. *)
Definition bdim (a b : nat) : res nat :=
  if a =? b then Ok a
  else if a =? 1 then Ok b
  else if b =? 1 then Ok a
  else Raise ValueError.

(** The index read on an axis of length [n] when the result is read at [k]. *)
Definition bidx (n k : nat) : nat := if n =? 1 then 0 else k.

(** An elementwise binary operation with NumPy broadcasting. *)
Definition broadcast2 {A B C : Type} (f : A -> B -> C) (x : mat A) (y : mat B) : res (mat C) :=
  r <- bdim (nrows x) (nrows y) ;;
  c <- bdim (ncols x) (ncols y) ;;
  Ok (Mat r c (fun j i =>
        f (get x (bidx (nrows x) j) (bidx (ncols x) i))
          (get y (bidx (nrows y) j) (bidx (ncols y) i)))).

(** The same on one-dimensional arrays. *)
Definition broadcast1 {A B C : Type} (dA : A) (dB : B) (f : A -> B -> C)
    (x : list A) (y : list B) : res (list C) :=
  n <- bdim (length x) (length y) ;;
  Ok (map (fun k => f (nth (bidx (length x) k) x dA) (nth (bidx (length y) k) y dB))
        (seq 0 n)).

Definition mat_map {A B : Type} (f : A -> B) (m : mat A) : mat B :=
  Mat (nrows m) (ncols m) (fun j i => f (get m j i)).

(** [np.transpose(np.where(mask))]: the indices of the true entries, row by
    row. *)
Definition where_ (mask : mat bool) : list (nat * nat) :=
  flat_map (fun j => map (pair j) (filter (fun i => get mask j i) (seq 0 (ncols mask))))
    (seq 0 (nrows mask)).

(** [mask.any()]. *)
Definition any (mask : mat bool) : bool :=
  existsb (fun j => existsb (fun i => get mask j i) (seq 0 (ncols mask)))
    (seq 0 (nrows mask)).

(** ** [memristor_learning/MemristorLearningRules.py] *)

Module Rules.
Local Open Scope Q_scope.

(** [np.rint]: the nearest integer, ties to the even one. *)
Definition rint (q : Q) : Z :=
  let f := Qfloor q in
  match Qcompare (q - inject_Z f) (1 # 2) with
  | Lt => f
  | Gt => (f + 1)%Z
  | Eq => if Z.even f then f else (f + 1)%Z
  end.

(** [np.array(np.rint(a), dtype=bool)] on one element. *)
Definition spiked (q : Q) : bool := negb (rint q =? 0)%Z.

(** [np.dot] of a matrix and a vector. *)
Definition dot_row (m : mat Q) (v : list Q) (j : nat) : Q :=
  fold_left Qplus (map (fun i => get m j i * nth i v 0) (seq 0 (ncols m))) 0.

Definition dot (m : mat Q) (v : list Q) : res (list Q) :=
  if (ncols m =? length v)%nat
  then Ok (map (dot_row m v) (seq 0 (nrows m)))
  else Raise ValueError.

(** [np.outer]. *)
Definition outer (u v : list Q) : mat Q :=
  Mat (length u) (length v) (fun j i => nth j u 0 * nth i v 0).

(** [>] on floats. *)
Definition gt (x y : Q) : bool := negb (Qle_bool x y).

(** Python's [/] on floats. *)
Definition pydiv (x y : Q) : res Q :=
  if Qeq_bool y 0 then Raise ZeroDivisionError else Ok (x / y).

(** What a rule hands to a device: [spiked_map[j, i]] is a boolean,
    [update_direction[j, i]] a float, and [local_error[j]] a float or a
    row of floats. *)
Inductive signal : Type :=
| SBool (b : bool)
| SNum (q : Q)
| SVec (v : list Q).

(** The keyword argument [method] of [pulse]. *)
Inductive method : Set := Same | Inverse.

(** The value of [error] in [mPES.__call__]: the slice of [x] or the
    integer [0]. *)
Inductive error_value : Type :=
| ErrArray (v : list Q)
| ErrZero.

(** The value of [local_error] in [mPES.__call__]: one- or
    two-dimensional, as [np.dot] returns it. *)
Inductive local_error_value : Type :=
| LocalVec (v : list Q)
| LocalMat (m : mat Q).

(** The four subclasses, with the attributes their constructors add. *)
Inductive rule : Type :=
| mHopfieldHebbian
| mOja (beta : Q)
| mBCM
| mPES (encoders : mat Q).

Section Device.
(** The class of the objects stored in [self.memristors] is not part of
    these sources: a device is a state of type [M], and
    [pulse dev s m] is the call [dev.pulse(s, value="conductance", method=m)],
    which returns the conductance and leaves the device in a new state. *)
Variable M : Type.
Variable pulse : M -> signal -> method -> M * Q.

(** The truth value of an empty array depends on the NumPy release
    (false with a deprecation warning, or a [ValueError]). *)
Variable empty_truth : res bool.

(** The attributes of [MemristorLearningRule], once the caller has set
    the sizes, the weights and the devices. *)
Record MemristorLearningRule : Type := Self {
    learning_rate : Q;
    dt : Q;
    last_error : option error_value;
    input_size : nat;
    output_size : nat;
    weights : mat Q;
    memristors : mat M
  }.

Definition set_last_error (self : MemristorLearningRule) (e : error_value) :=
  Self (learning_rate self) (dt self) (Some e) (input_size self)
    (output_size self) (weights self) (memristors self).

Definition set_devices (self : MemristorLearningRule) (w : mat Q) (ms : mat M) :=
  Self (learning_rate self) (dt self) (last_error self) (input_size self)
    (output_size self) w ms.

Definition get_error_signal (self : MemristorLearningRule) : option error_value :=
  last_error self.

(** [self.alpha = self.learning_rate * self.dt] of the unsupervised rules. *)
Definition alpha (self : MemristorLearningRule) : Q :=
  learning_rate self * dt self.

Definition find_spikes (self : MemristorLearningRule)
    (input_activities : list Q) (output_activities : option (list Q)) : res (mat bool) :=
  let spiked_pre := tile_rows false (map spiked input_activities) (output_size self) in
  let spiked_post :=
    match output_activities with
    | Some o => tile_cols false (map spiked o) (input_size self)
    | None => Mat 1 (input_size self) (fun _ _ => true)
    end in
  broadcast2 andb spiked_pre spiked_post.

(** [self.weights[j, i] = self.memristors[j, i].pulse(s, value="conductance", method=m)]. *)
Definition pulse_at (self : MemristorLearningRule) (j i : nat) (s : signal) (m : method)
    : res MemristorLearningRule :=
  dev <- getitem (memristors self) j i ;;
  let (dev', g) := pulse dev s m in
  ms <- setitem (memristors self) j i dev' ;;
  w <- setitem (weights self) j i g ;;
  Ok (set_devices self w ms).

(** The truth value of a boolean array in an [if]. *)
Definition truth (v : list bool) : res bool :=
  match v with
  | [] => empty_truth
  | [b] => Ok b
  | _ :: _ :: _ => Raise ValueError
  end.

(** [mHopfieldHebbian.__call__]. *)
Definition mHopfieldHebbian_update (self : MemristorLearningRule) (x : list Q)
    : res MemristorLearningRule :=
  let input_activities := x in
  spiked_map <- find_spikes self input_activities (Some input_activities) ;;
  if any spiked_map then
    for_each (fun self '(j, i) =>
        if negb (i =? j)%nat then
          s_ji <- getitem spiked_map j i ;;
          self <- pulse_at self j i (SBool s_ji) Same ;;
          s_ij <- getitem spiked_map i j ;;
          pulse_at self i j (SBool s_ij) Same
        else Ok self)
      (where_ spiked_map) self
  else Ok self.

Definition mHopfieldHebbian_call (self : MemristorLearningRule) (x : list Q)
    : res (list Q * MemristorLearningRule) :=
  self <- mHopfieldHebbian_update self x ;;
  out <- dot (weights self) x ;;
  Ok (out, self).

(** [update_direction] of [mOja.__call__]. *)
Definition mOja_update_direction (beta : Q) (self : MemristorLearningRule)
    (input_activities output_activities : list Q) : res (mat Q) :=
  let post_squared :=
    map (fun o => alpha self * o * o) output_activities in
  forgetting <-
    broadcast2 Qmult (mat_map (fun w => - beta * w) (weights self))
      (column 0 post_squared) ;;
  let hebbian :=
    outer (map (fun o => alpha self * o) output_activities) input_activities in
  broadcast2 Qminus hebbian forgetting.

(** [mOja.__call__]. *)
Definition mOja_update (beta : Q) (self : MemristorLearningRule) (x : list Q)
    : res MemristorLearningRule :=
  let input_activities := firstn (input_size self) x in
  let output_activities := firstn (output_size self) (skipn (input_size self) x) in
  update_direction <- mOja_update_direction beta self input_activities output_activities ;;
  spiked_map <- find_spikes self input_activities (Some output_activities) ;;
  if any spiked_map then
    for_each (fun self '(j, i) =>
        d <- getitem update_direction j i ;;
        pulse_at self j i (SNum d) Same)
      (where_ spiked_map) self
  else Ok self.

Definition mOja_call (beta : Q) (self : MemristorLearningRule) (x : list Q)
    : res (list Q * MemristorLearningRule) :=
  self' <- mOja_update beta self x ;;
  out <- dot (weights self') (firstn (input_size self) x) ;;
  Ok (out, self').

(** [mBCM.__call__]. *)
Definition mBCM_update (self : MemristorLearningRule) (x : list Q)
    : res MemristorLearningRule :=
  let input_activities := firstn (input_size self) x in
  let output_activities := firstn (output_size self) (skipn (input_size self) x) in
  let theta := skipn (input_size self + output_size self) x in
  update_direction <- broadcast1 0 0 Qminus output_activities theta ;;
  _update <- broadcast1 0 0 Qmult
               (map (fun o => alpha self * o) output_activities) update_direction ;;
  spiked_map <- find_spikes self input_activities (Some output_activities) ;;
  if any spiked_map then
    for_each (fun self '(j, i) =>
        d <- getitem1 update_direction j ;;
        pulse_at self j i (SNum d) Same)
      (where_ spiked_map) self
  else Ok self.

Definition mBCM_call (self : MemristorLearningRule) (x : list Q)
    : res (list Q * MemristorLearningRule) :=
  self' <- mBCM_update self x ;;
  out <- dot (weights self') (firstn (input_size self) x) ;;
  Ok (out, self').

(** [x[self.input_size:] if abs(x[self.input_size:]) > 10**-5 else 0]. *)
Definition squash_error (error_slice : list Q) : res error_value :=
  above <- truth (map (fun e => gt (Qabs e) (1 # 100000)) error_slice) ;;
  Ok (if above then ErrArray error_slice else ErrZero).

(** [alpha * np.dot(self.encoders, error)]. *)
Definition mPES_local_error (encoders : mat Q) (a : Q) (error : error_value)
    : res local_error_value :=
  match error with
  | ErrArray v =>
      d <- dot encoders v ;;
      Ok (LocalVec (map (Qmult a) d))
  | ErrZero =>
      Ok (LocalMat (mat_map (fun e => a * (e * 0)) encoders))
  end.

(** [local_error[j]]. *)
Definition local_error_at (le : local_error_value) (j : nat) : res signal :=
  match le with
  | LocalVec v => q <- getitem1 v j ;; Ok (SNum q)
  | LocalMat m =>
      if (j <? nrows m)%nat
      then Ok (SVec (map (fun i => get m j i) (seq 0 (ncols m))))
      else Raise IndexError
  end.

(** [mPES.__call__]. *)
Definition mPES_update (encoders : mat Q) (self : MemristorLearningRule) (x : list Q)
    : res MemristorLearningRule :=
  let input_activities := firstn (input_size self) x in
  error <- squash_error (skipn (input_size self) x) ;;
  a <- pydiv (learning_rate self * dt self) (inject_Z (Z.of_nat (input_size self))) ;;
  let self := set_last_error self error in
  local_error <- mPES_local_error encoders a error ;;
  spiked_map <- find_spikes self input_activities None ;;
  if any spiked_map then
    for_each (fun self '(j, i) =>
        e <- local_error_at local_error j ;;
        pulse_at self j i e Inverse)
      (where_ spiked_map) self
  else Ok self.

Definition mPES_call (encoders : mat Q) (self : MemristorLearningRule) (x : list Q)
    : res (list Q * MemristorLearningRule) :=
  self' <- mPES_update encoders self x ;;
  out <- dot (weights self') (firstn (input_size self) x) ;;
  Ok (out, self').

(** The pre-synaptic activities a rule reads from its input [x]. *)
Definition input_activities (r : rule) (self : MemristorLearningRule) (x : list Q) : list Q :=
  match r with
  | mHopfieldHebbian => x
  | _ => firstn (input_size self) x
  end.

(** [rule.__call__( t, x )]; the time [t] is not read by any rule. *)
Definition call (r : rule) (self : MemristorLearningRule) (x : list Q)
    : res (list Q * MemristorLearningRule) :=
  match r with
  | mHopfieldHebbian => mHopfieldHebbian_call self x
  | mOja beta => mOja_call beta self x
  | mBCM => mBCM_call self x
  | mPES encoders => mPES_call encoders self x
  end.
End Device.
End Rules.

(** ** [memristor_nengo/learning_rules.py] *)

Module Nengo.
Local Open Scope R_scope.

(** A NumPy float: a real number or one of the IEEE special values.
    Rounding is not modelled, and a zero is taken as [+0]. *)
Inductive float64 : Type :=
| Fin (r : R)
| PInf
| NInf
| NaN.

Definition fneg (x : float64) : float64 :=
  match x with
  | Fin r => Fin (- r)
  | PInf => NInf
  | NInf => PInf
  | NaN => NaN
  end.

Definition fadd (x y : float64) : float64 :=
  match x, y with
  | NaN, _ | _, NaN => NaN
  | Fin a, Fin b => Fin (a + b)
  | PInf, NInf | NInf, PInf => NaN
  | PInf, _ | _, PInf => PInf
  | NInf, _ | _, NInf => NInf
  end.

Definition fsub (x y : float64) : float64 := fadd x (fneg y).

(** An infinity with the sign of [s], or [nan] when [s] is zero. *)
Definition signed_inf (s : R) : float64 :=
  if Rlt_dec 0 s then PInf else if Rlt_dec s 0 then NInf else NaN.

Definition fmul (x y : float64) : float64 :=
  match x, y with
  | NaN, _ | _, NaN => NaN
  | Fin a, Fin b => Fin (a * b)
  | Fin a, PInf | PInf, Fin a => signed_inf a
  | Fin a, NInf | NInf, Fin a => signed_inf (- a)
  | PInf, PInf | NInf, NInf => PInf
  | PInf, NInf | NInf, PInf => NInf
  end.

Definition fdiv (x y : float64) : float64 :=
  match x, y with
  | NaN, _ | _, NaN => NaN
  | Fin a, Fin b => if Req_dec_T b 0 then signed_inf a else Fin (a / b)
  | Fin _, PInf | Fin _, NInf => Fin 0
  | PInf, Fin b => if Rlt_dec b 0 then NInf else PInf
  | NInf, Fin b => if Rlt_dec b 0 then PInf else NInf
  | PInf, PInf | PInf, NInf | NInf, PInf | NInf, NInf => NaN
  end.

(** [x ** y] for an exponent [y] that is not an integer, as both exponents
    of the pulse law are: a negative base has no real power, and a zero
    base with a negative exponent divides by zero. *)
Definition fpow (x : float64) (y : R) : float64 :=
  match x with
  | NaN => NaN
  | Fin b =>
      if Rlt_dec 0 b then Fin (Rpower b y)
      else if Rlt_dec b 0 then NaN
      else if Rlt_dec y 0 then PInf else Fin 0
  | PInf | NInf => if Rlt_dec y 0 then Fin 0 else PInf
  end.

(** [np.sign]. *)
Definition sign (x : R) : R :=
  if Rlt_dec 0 x then 1 else if Rlt_dec x 0 then -1 else 0.

Definition gt0 (x : R) : bool := if Rlt_dec 0 x then true else false.
Definition lt0 (x : R) : bool := if Rlt_dec x 0 then true else false.

(** [np.dot] of a matrix and a vector, and [np.outer]. *)
Definition dot_row (m : mat R) (v : list R) (j : nat) : R :=
  fold_left Rplus (map (fun i => get m j i * nth i v 0) (seq 0 (ncols m))) 0.

Definition dot (m : mat R) (v : list R) : res (list R) :=
  if (ncols m =? length v)%nat
  then Ok (map (dot_row m v) (seq 0 (nrows m)))
  else Raise ValueError.

Definition outer (u v : list R) : mat R :=
  Mat (length u) (length v) (fun j i => nth j u 0 * nth i v 0).

(** Python's [/] on floats. *)
Definition pydiv (x y : R) : res R :=
  if Req_dec_T y 0 then Raise ZeroDivisionError else Ok (x / y).

(** *** The front end [mPES] *)

(** [np.finfo( float ).eps]. *)
Definition epsilon : R := / 2 ^ 52.

(** [mPES.normalized_conductance], on one element of [R]; [r_max] and
    [r_min] are the attributes of the rule. *)
Definition normalized_conductance (r_max r_min : R) (R0 : float64) : res float64 :=
  let gain := 1e5 in
  let g_curr := fdiv (Fin 1) R0 in
  g_min <- pydiv 1 r_max ;;
  g_max <- pydiv 1 r_min ;;
  Ok (fmul (Fin gain)
        (fadd (fdiv (fsub g_curr (Fin g_min)) (Fin (g_max - g_min))) (Fin epsilon))).

(** [mPES.initial_resistances]: [np.random.uniform( low, high, shape )]
    draws [low + (high - low) * u] for a sample [u] of [[0, 1)] per
    element; [u] stands for the draws of the generator. *)
Definition initial_resistances (u : nat -> nat -> R) (low high : R) (shape : nat * nat)
    : mat float64 :=
  Mat (fst shape) (snd shape) (fun j i => Fin (low + (high - low) * u j i)).

(** *** The operator [SimmPES] *)

(** The constants of [step_simmpes]. *)
Definition a : R := -0.1802.
Definition r_min : R := 1e2.
Definition r_max : R := 2.5e8.
Definition g_min : R := 1 / r_max.
Definition g_max : R := 1 / r_min.
Definition gain : R := 1e6.

Definition resistance2conductance (R0 : float64) : float64 :=
  let g_curr := fdiv (Fin 1) R0 in
  let g_norm := fdiv (fsub g_curr (Fin g_min)) (Fin (g_max - g_min)) in
  fmul g_norm (Fin gain).

(** One pulse on one device:
    [n = ((R - r_min) / r_max)**(1 / a)] and then
    [r_min + r_max * (n + 1)**a]. *)
Definition pulse_number (R0 : float64) : float64 :=
  fpow (fdiv (fsub R0 (Fin r_min)) (Fin r_max)) (1 / a).

Definition powerlaw_pulse (R0 : float64) : float64 :=
  fadd (Fin r_min) (fmul (Fin r_max) (fpow (fadd (pulse_number R0) (Fin 1)) a)).

Definition same_shape {A B : Type} (x : mat A) (y : mat B) : bool :=
  (nrows x =? nrows y)%nat && (ncols x =? ncols y)%nat.

(** [m[mask] = r_min + r_max * (((m[mask] - r_min) / r_max)**(1 / a) + 1)**a]. *)
Definition pulse_where (mask : mat bool) (m : mat float64) : res (mat float64) :=
  if same_shape mask m
  then Ok (Mat (nrows m) (ncols m)
             (fun j i => if get mask j i then powerlaw_pulse (get m j i) else get m j i))
  else Raise IndexError.

(** [target[:] = x]. *)
Definition assign_all {A : Type} (target x : mat A) : res (mat A) :=
  if ((nrows x =? nrows target)%nat || (nrows x =? 1)%nat)
     && ((ncols x =? ncols target)%nat || (ncols x =? 1)%nat)
  then Ok (Mat (nrows target) (ncols target)
             (fun j i => get x (bidx (nrows x) j) (bidx (ncols x) i)))
  else Raise ValueError.

(** The signals the operator updates. *)
Record crossbar : Type := Crossbar {
    delta : mat float64;
    pos_memristors : mat float64;
    neg_memristors : mat float64
  }.

(** [alpha] of [make_step]. *)
Definition make_step_alpha (learning_rate dt : R) (pre_filtered : list R) : res R :=
  let n_neurons := length pre_filtered in
  pydiv (- learning_rate * dt) (INR n_neurons).

(** [local_error] of [step_simmpes]. *)
Definition local_error (alpha : R) (encoders : mat R) (error : list R) : res (list R) :=
  d <- dot encoders error ;;
  Ok (map (Rmult alpha) d).

(** [V] of [step_simmpes]. *)
Definition voltage (alpha : R) (encoders : mat R) (error pre_filtered : list R)
    : res (mat R) :=
  le <- local_error alpha encoders error ;;
  let pes_delta := outer le pre_filtered in
  Ok (mat_map (fun d => sign d * 1e-1) pes_delta).

(** [step_simmpes], on the current values of the signals it reads and
    updates. *)
Definition step_simmpes (alpha : R) (encoders : mat R) (error pre_filtered : list R)
    (s : crossbar) : res crossbar :=
  V <- voltage alpha encoders error pre_filtered ;;
  pos <- pulse_where (mat_map gt0 V) (pos_memristors s) ;;
  neg <- pulse_where (mat_map lt0 V) (neg_memristors s) ;;
  d <- broadcast2 fsub (mat_map resistance2conductance pos)
         (mat_map resistance2conductance neg) ;;
  delta' <- assign_all (delta s) d ;;
  Ok (Crossbar delta' pos neg).

(** [make_step] followed by one call of the step it returns. *)
Definition simmpes (learning_rate dt : R) (encoders : mat R) (error pre_filtered : list R)
    (s : crossbar) : res crossbar :=
  alpha <- make_step_alpha learning_rate dt pre_filtered ;;
  step_simmpes alpha encoders error pre_filtered s.

(** The signals [build_mpes] creates: both device arrays are drawn from
    [[1e8, 1.1e8)]; [delta] starts at zero. *)
Definition build_mpes (u_pos u_neg : nat -> nat -> R) (out_size in_size : nat) : crossbar :=
  Crossbar (Mat out_size in_size (fun _ _ => Fin 0))
    (initial_resistances u_pos 1e8 1.1e8 (out_size, in_size))
    (initial_resistances u_neg 1e8 1.1e8 (out_size, in_size)).

(** A run: the operator is stepped once per time step with the values the
    error and activity signals hold then. *)
Definition run (learning_rate dt : R) (encoders : mat R)
    (inputs : list (list R * list R)) (s : crossbar) : res crossbar :=
  for_each (fun s '(error, pre_filtered) =>
              simmpes learning_rate dt encoders error pre_filtered s)
    inputs s.
(** *** Functions of the file the operator does not call *)

(** [monom_deriv] of [step_simmpes]: [exp * base**(exp - 1)]. *)
Definition monom_deriv (base : float64) (exp : R) : float64 :=
  fmul (Fin exp) (fpow base (exp - 1)).

(** [mPES.initial_normalized_conductances]; [u] stands for the draws of the
    generator. *)
Definition initial_normalized_conductances (u : nat -> nat -> R) (low high : R)
    (shape : nat * nat) (r_max r_min : R) : res (mat float64) :=
  let g_curr := mat_map (fdiv (Fin 1)) (initial_resistances u low high shape) in
  g_min <- pydiv 1 r_max ;;
  g_max <- pydiv 1 r_min ;;
  Ok (mat_map (fun g => fdiv (fsub g (Fin g_min)) (Fin (g_max - g_min))) g_curr).
End Nengo.

(** * Vocabulary of the statements

    The definitions of this part are not code of the repository: they name
    what the statements below speak about, and fix the concrete inputs on
    which the embedded code is run. *)

Section RuleVocabulary.
Import Rules.
Variable M : Type.
Variable pulse : M -> signal -> method -> M * Q.
Variable empty_truth : res bool.

Local Abbreviation Rule := (MemristorLearningRule M).
Local Abbreviation pulse_at := (pulse_at M pulse).

(** The attributes a step never writes, and the shapes of the two arrays. *)
Definition same_frame (self self' : Rule) : Prop :=
  learning_rate M self' = learning_rate M self /\
  dt M self' = dt M self /\
  input_size M self' = input_size M self /\
  output_size M self' = output_size M self /\
  nrows (weights M self') = nrows (weights M self) /\
  ncols (weights M self') = ncols (weights M self) /\
  nrows (memristors M self') = nrows (memristors M self) /\
  ncols (memristors M self') = ncols (memristors M self).

(** The device and the weight of entry [(j, i)]. *)
Definition entry (self : Rule) (j i : nat) : M * Q :=
  (get (memristors M self) j i, get (weights M self) j i).

(** A sequence of pulses, each on one entry. *)
Definition pulse_list (m : method) (l : list (nat * nat * signal)) (self : Rule) : res Rule :=
  for_each (fun self p => pulse_at self (fst (fst p)) (snd (fst p)) (snd p) m) l self.

Definition addressed (j i : nat) (p : nat * nat * signal) : bool :=
  (fst (fst p) =? j) && (snd (fst p) =? i).

(** The signals a sequence of pulses sends to entry [(j, i)], in order. *)
Definition signals_at (j i : nat) (l : list (nat * nat * signal)) : list signal :=
  map snd (filter (addressed j i) l).

(** A device and its weight after the pulses [sigs]. *)
Definition apply_pulses (m : method) (sigs : list signal) (e : M * Q) : M * Q :=
  fold_left (fun e s => pulse (fst e) s m) sigs e.

(** The signal [mPES.__call__] computes for the devices of row [j]. *)
Definition pes_signal (encoders : mat Q) (self : Rule) (x : list Q) (j : nat) : res signal :=
  error <- squash_error empty_truth (skipn (input_size M self) x) ;;
  a <- pydiv (learning_rate M self * dt M self) (inject_Z (Z.of_nat (input_size M self))) ;;
  local_error <- mPES_local_error encoders a error ;;
  local_error_at local_error j.

Definition addr_eq_dec (p q : nat * nat) : {p = q} + {p <> q}.
Proof. decide equality; apply Nat.eq_dec. Defined.

(** The pulses of the loop of [mHopfieldHebbian.__call__] over the index
    pairs [l]: off the diagonal, one on [(j, i)] and one on [(i, j)]. *)
Definition hebbian_pulses (l : list (nat * nat)) : list (nat * nat * signal) :=
  flat_map (fun p =>
              if (snd p =? fst p) then []
              else [(fst p, snd p, SBool true); (snd p, fst p, SBool true)]) l.
End RuleVocabulary.

Section DeviceVocabulary.
Import Nengo.
Local Open Scope R_scope.

(** The closed forms of one pulse and of the conversion on a finite
    resistance. *)
Definition pulse_value (R0 : R) : R :=
  r_min + r_max * Rpower (Rpower ((R0 - r_min) / r_max) (1 / a) + 1) a.

Definition conductance_value (R0 : R) : R :=
  (1 / R0 - g_min) / (g_max - g_min) * gain.

(** A device state within the bounds of the law. *)
Definition within_bounds (x : float64) : Prop :=
  match x with
  | Fin r => r_min <= r <= r_max
  | _ => False
  end.

(** The three signals of a connection with [out_size] post-synaptic and
    [in_size] pre-synaptic neurons. *)
Definition shaped (out_size in_size : nat) (s : crossbar) : Prop :=
  (nrows (delta s) = out_size /\ ncols (delta s) = in_size) /\
  (nrows (pos_memristors s) = out_size /\ ncols (pos_memristors s) = in_size) /\
  (nrows (neg_memristors s) = out_size /\ ncols (neg_memristors s) = in_size).

(** The operator on one synapse with unit encoder, learning rate and time
    step, from devices at [1e8]. *)
Definition single_synapse : crossbar :=
  build_mpes (fun _ _ => 0) (fun _ _ => 0) 1 1.
(** The outcome of [make_step] and one step, read off the shapes of the
    signals: the exception raised, if any. *)
Definition simmpes_outcome (encoders : mat R) (error pre_filtered : list R) (s : crossbar)
    : option exn :=
  let fits (m : mat float64) :=
    (nrows encoders =? nrows m)%nat && (length pre_filtered =? ncols m)%nat in
  if (length pre_filtered =? 0)%nat then Some ZeroDivisionError
  else if negb (ncols encoders =? length error)%nat then Some ValueError
  else if negb (fits (pos_memristors s)) then Some IndexError
  else if negb (fits (neg_memristors s)) then Some IndexError
  else if negb (((nrows encoders =? nrows (delta s))%nat || (nrows encoders =? 1)%nat)
                && ((length pre_filtered =? ncols (delta s))%nat
                    || (length pre_filtered =? 1)%nat))
       then Some ValueError
  else None.

End DeviceVocabulary.

(** ** Concrete inputs *)

(** An example device, to run the rules on concrete inputs: its state is an
    integer, which a signal of non-zero sign steps by one (up with [Same],
    down with [Inverse]) and a zero signal leaves alone; the conductance it
    returns is its state. *)
Definition signal_sign (s : Rules.signal) : Z :=
  match s with
  | Rules.SBool b => if b then 1 else 0
  | Rules.SNum q => Z.sgn (Qnum q)
  | Rules.SVec v => match v with q :: _ => Z.sgn (Qnum q) | [] => 0 end
  end.

Definition stepper (n : Z) (s : Rules.signal) (m : Rules.method) : Z * Q :=
  let n' := match m with
            | Rules.Same => (n + signal_sign s)%Z
            | Rules.Inverse => (n - signal_sign s)%Z
            end in
  (n', inject_Z n').

(** A rule with unit learning rate and time step, zero weights and devices
    in state [0]. *)
Definition fresh_rule (input_size output_size : nat) : Rules.MemristorLearningRule Z :=
  Rules.Self Z 1 1 None input_size output_size
    (Mat output_size input_size (fun _ _ => 0%Q))
    (Mat output_size input_size (fun _ _ => 0%Z)).

Section OjaVocabulary.
Import Rules.
Local Open Scope Q_scope.

(** The update direction as the specification words it:
    [alpha * post^2 * outer(post, pre) - beta * weight * post^2], at one
    entry. *)
Definition specified_direction (alpha beta weight post pre : Q) : Q :=
  alpha * (post * post) * (post * pre) - beta * weight * (post * post).

(** A rule with learning rate [1], time step [1/2] and the weights [[0, 1]]. *)
Definition oja_example : MemristorLearningRule Z :=
  Self Z 1 (1 # 2) None 2 1 (of_rows 0 [[0; 1]]) (of_rows 0%Z [[0; 0]]%Z).
End OjaVocabulary.

(** * Properties *)

(** ** The embedding on small inputs *)

Section Examples.
Import Rules.

Example rint_ties_to_even :
  map rint [1 # 2; 3 # 2; 5 # 2; - (1 # 2); 3 # 4; - (3 # 4)]%Q = [0; 2; 2; 0; 1; -1]%Z.
Proof. reflexivity. Qed.

Example spiked_above_half :
  map spiked [0; 1 # 2; 51 # 100; 1; 100; - (1 # 4); -1]%Q
    = [false; false; true; true; true; false; true].
Proof. reflexivity. Qed.

Example where_row_major :
  where_ (of_rows false [[false; true]; [true; true]]) = [(0, 1); (1, 0); (1, 1)].
Proof. reflexivity. Qed.

Example broadcast_mismatch :
  bdim 2 3 = Raise ValueError /\ bdim 1 3 = Ok 3 /\ bdim 3 1 = Ok 3 /\ bdim 0 1 = Ok 0.
Proof. repeat split. Qed.

(** The supervised rule on two inputs and one output: the first input
    spikes, the error [1] is above the threshold, and the device of entry
    [(0, 0)] steps down with the [Inverse] method. *)
Example mPES_call_runs :
  match mPES_call Z stepper (Ok false) (of_rows 0%Q [[1%Q]]) (fresh_rule 2 1) [1; 0; 1]%Q with
  | Ok (out, self') =>
      map Qred out = [-1]%Q /\
      get (memristors Z self') 0 0 = (-1)%Z /\
      get (memristors Z self') 0 1 = 0%Z /\
      last_error Z self' = Some (ErrArray [1%Q])
  | Raise _ => False
  end.
Proof. vm_compute. repeat split. Qed.

(** The Hebbian rule on three neurons of which the first two spike. *)
Example mHopfieldHebbian_call_runs :
  match mHopfieldHebbian_call Z stepper (fresh_rule 3 3) [1; 1; 0]%Q with
  | Ok (out, self') =>
      map Qred out = [2; 2; 0]%Q /\
      map (fun j => map (get (memristors Z self') j) [0; 1; 2]) [0; 1; 2]
        = [[0; 2; 0]; [2; 0; 0]; [0; 0; 0]]%Z
  | Raise _ => False
  end.
Proof. vm_compute. repeat split. Qed.
End Examples.

(** ** The run time *)

Lemma bind_ok {A B : Type} (c : res A) (k : A -> res B) (b : B) :
  bind c k = Ok b -> exists a, c = Ok a /\ k a = Ok b.
Proof. destruct c as [a|e]; cbn; [eauto | discriminate]. Qed.

Lemma for_each_ext {A S : Type} (f g : S -> A -> res S) (l : list A) (s : S) :
  (forall s a, f s a = g s a) -> for_each f l s = for_each g l s.
Proof.
  intros H. revert s. induction l as [|x l IH]; intros s; [reflexivity|].
  cbn. rewrite H. destruct (g s x); cbn; auto.
Qed.

Section ArrayFacts.
Context {A : Type}.

Lemma getitem_ok (m : mat A) j i v :
  getitem m j i = Ok v -> j < nrows m /\ i < ncols m /\ v = get m j i.
Proof.
  unfold getitem, in_range.
  destruct (j <? nrows m) eqn:Ej, (i <? ncols m) eqn:Ei; cbn [andb]; try discriminate.
  apply Nat.ltb_lt in Ej, Ei. intros H; injection H as <-; auto.
Qed.

Lemma setitem_ok (m m' : mat A) j i v :
  setitem m j i v = Ok m' ->
  nrows m' = nrows m /\ ncols m' = ncols m /\
  forall j' i', get m' j' i' = if (j' =? j) && (i' =? i) then v else get m j' i'.
Proof.
  unfold setitem. destruct (in_range m j i); [|discriminate].
  intros H; injection H as <-; cbn; auto.
Qed.

End ArrayFacts.

Lemma bdim_same (n : nat) : bdim n n = Ok n.
Proof. unfold bdim. now rewrite Nat.eqb_refl. Qed.

Lemma bdim_one_r (n : nat) : bdim n 1 = Ok n.
Proof.
  unfold bdim. destruct (n =? 1) eqn:E; [apply Nat.eqb_eq in E; now subst|].
  reflexivity.
Qed.

Lemma bidx_lt (n k : nat) : k < n -> bidx n k = k.
Proof.
  intros H. unfold bidx. destruct (n =? 1) eqn:E; [|reflexivity].
  apply Nat.eqb_eq in E. lia.
Qed.

Lemma where_In (mask : mat bool) j i :
  In (j, i) (where_ mask) <-> j < nrows mask /\ i < ncols mask /\ get mask j i = true.
Proof.
  unfold where_. rewrite in_flat_map. split.
  - intros (j' & Hj & H). apply in_map_iff in H as (i' & E & H). injection E as -> ->.
    apply filter_In in H as [H1 H2]. apply in_seq in Hj, H1. repeat split; auto; lia.
  - intros (Hj & Hi & H). exists j. split; [apply in_seq; lia|].
    apply in_map. apply filter_In. split; [apply in_seq; lia | exact H].
Qed.

Lemma NoDup_flat_map_pair {B : Type} (f : nat -> list B) (l : list nat) :
  NoDup l -> (forall j, NoDup (f j)) ->
  NoDup (flat_map (fun j => map (pair j) (f j)) l).
Proof.
  intros Hl Hf. induction Hl as [|j l Hn Hl IH]; cbn; [constructor|].
  apply NoDup_app; auto.
  - apply Injective_map_NoDup; [|apply Hf]. intros x y E; now injection E.
  - intros [j' b] H1 H2. apply in_map_iff in H1 as (b' & E & _). injection E as <- <-.
    apply in_flat_map in H2 as (j'' & Hj'' & H2).
    apply in_map_iff in H2 as (b'' & E & _). injection E as -> ->. contradiction.
Qed.

Lemma where_NoDup (mask : mat bool) : NoDup (where_ mask).
Proof.
  unfold where_. apply NoDup_flat_map_pair; [apply seq_NoDup|].
  intros j. apply NoDup_filter, seq_NoDup.
Qed.

Lemma any_where (mask : mat bool) : any mask = false -> where_ mask = [].
Proof.
  intros H. destruct (where_ mask) as [|[j i] l] eqn:E; [reflexivity|].
  assert (Hin : In (j, i) (where_ mask)) by (rewrite E; now left).
  apply where_In in Hin as (Hj & Hi & Hg).
  assert (Ht : any mask = true).
  { unfold any. apply existsb_exists. exists j. split; [apply in_seq; lia|].
    apply existsb_exists. exists i. split; [apply in_seq; lia | exact Hg]. }
  congruence.
Qed.

(** ** The device law of [SimmPES] *)

Section DeviceLaw.
Import Nengo.
Local Open Scope R_scope.

Lemma a_neg : a < 0.
Proof. unfold a. lra. Qed.

Lemma r_min_pos : 0 < r_min.
Proof. unfold r_min. lra. Qed.

Lemma r_max_pos : 0 < r_max.
Proof. unfold r_max. lra. Qed.

Lemma r_min_lt_r_max : r_min < r_max.
Proof. unfold r_min, r_max. lra. Qed.

Lemma g_range_pos : 0 < g_max - g_min.
Proof. unfold g_max, g_min, r_min, r_max. lra. Qed.

Lemma Rpower_anti (x y e : R) : 0 < x -> x < y -> e < 0 -> Rpower y e < Rpower x e.
Proof.
  intros Hx Hxy He. unfold Rpower. apply exp_increasing.
  pose proof (ln_increasing x y Hx Hxy). nra.
Qed.

Lemma powerlaw_pulse_fin (R0 : R) :
  r_min < R0 -> powerlaw_pulse (Fin R0) = Fin (pulse_value R0).
Proof.
  intros H. unfold powerlaw_pulse, pulse_number, pulse_value.
  cbn [fsub fneg fadd fdiv].
  pose proof r_max_pos as Hm.
  destruct (Req_dec_T r_max 0) as [E|_]; [lra|].
  assert (Hb : 0 < (R0 + - r_min) / r_max) by (apply Rdiv_lt_0_compat; lra).
  cbn [fpow]. destruct (Rlt_dec 0 ((R0 + - r_min) / r_max)) as [_|N]; [|contradiction].
  cbn [fadd fpow].
  set (n := Rpower ((R0 + - r_min) / r_max) (1 / a)).
  assert (Hn : 0 < n) by apply exp_pos.
  destruct (Rlt_dec 0 (n + 1)) as [_|N]; [|lra].
  cbn [fmul fadd]. reflexivity.
Qed.

Lemma powerlaw_pulse_saturated : powerlaw_pulse (Fin r_min) = Fin r_min.
Proof.
  unfold powerlaw_pulse, pulse_number. cbn [fsub fneg fadd fdiv].
  pose proof r_max_pos as Hm. pose proof a_neg as Ha.
  destruct (Req_dec_T r_max 0) as [E|_]; [lra|].
  replace ((r_min + - r_min) / r_max) with 0 by (field; lra).
  cbn [fpow]. destruct (Rlt_dec 0 0) as [N|_]; [lra|].
  assert (Hi : 1 / a < 0).
  { unfold Rdiv. rewrite Rmult_1_l. now apply Rinv_lt_0_compat. }
  destruct (Rlt_dec (1 / a) 0) as [_|N]; [|contradiction].
  cbn [fadd fpow]. destruct (Rlt_dec a 0) as [_|N]; [|contradiction].
  cbn [fmul fadd]. f_equal. lra.
Qed.

Lemma pulse_value_bounds (R0 : R) :
  r_min < R0 -> r_min < pulse_value R0 < R0.
Proof.
  intros H. pose proof r_max_pos as Hm. pose proof a_neg as Ha.
  unfold pulse_value.
  set (b := (R0 - r_min) / r_max).
  assert (Hb : 0 < b) by (apply Rdiv_lt_0_compat; lra).
  set (n := Rpower b (1 / a)).
  assert (Hn : 0 < n) by apply exp_pos.
  assert (Hp : 0 < Rpower (n + 1) a) by apply exp_pos.
  assert (Hlt : Rpower (n + 1) a < Rpower n a) by (apply Rpower_anti; lra).
  assert (Hnb : Rpower n a = b).
  { unfold n. rewrite Rpower_mult. replace (1 / a * a) with 1 by (field; lra).
    apply Rpower_1; exact Hb. }
  rewrite Hnb in Hlt.
  split; [nra|].
  assert (r_max * b = R0 - r_min) by (unfold b; field; lra).
  nra.
Qed.

Lemma resistance2conductance_fin (R0 : R) :
  0 < R0 -> resistance2conductance (Fin R0) = Fin (conductance_value R0).
Proof.
  intros H. unfold resistance2conductance, conductance_value.
  pose proof g_range_pos as Hg. cbn [fdiv].
  destruct (Req_dec_T R0 0) as [E|_]; [lra|].
  cbn [fsub fneg fadd fdiv].
  destruct (Req_dec_T (g_max - g_min) 0) as [E|_]; [lra|].
  cbn [fmul]. f_equal.
Qed.

Lemma powerlaw_pulse_within (x : float64) :
  within_bounds x -> within_bounds (powerlaw_pulse x).
Proof.
  destruct x as [r| | |]; cbn [within_bounds]; try contradiction. intros [Hl Hu].
  destruct (Rle_lt_or_eq_dec _ _ Hl) as [Hlt|<-].
  - rewrite powerlaw_pulse_fin by exact Hlt. cbn [within_bounds].
    pose proof (pulse_value_bounds r Hlt). lra.
  - rewrite powerlaw_pulse_saturated. cbn [within_bounds].
    pose proof r_min_lt_r_max. lra.
Qed.
End DeviceLaw.

(** ** The operator [SimmPES] *)

Section SimmPESFacts.
Import Nengo.
Local Open Scope R_scope.

Lemma gt0_voltage (d : R) : gt0 (sign d * 1e-1) = gt0 d.
Proof.
  unfold gt0, sign.
  destruct (Rlt_dec 0 d) as [H|H].
  - destruct (Rlt_dec 0 (1 * 1e-1)) as [_|N]; [reflexivity | lra].
  - destruct (Rlt_dec d 0) as [H'|H'].
    + destruct (Rlt_dec 0 (-1 * 1e-1)) as [N|_]; [lra | reflexivity].
    + destruct (Rlt_dec 0 (0 * 1e-1)) as [N|_]; [lra | reflexivity].
Qed.

Lemma lt0_voltage (d : R) : lt0 (sign d * 1e-1) = lt0 d.
Proof.
  unfold lt0, sign.
  destruct (Rlt_dec 0 d) as [H|H].
  - destruct (Rlt_dec (1 * 1e-1) 0) as [N|_]; [lra|].
    destruct (Rlt_dec d 0) as [N|_]; [lra | reflexivity].
  - destruct (Rlt_dec d 0) as [H'|H'].
    + destruct (Rlt_dec (-1 * 1e-1) 0) as [_|N]; [reflexivity | lra].
    + destruct (Rlt_dec (0 * 1e-1) 0) as [N|_]; [lra | reflexivity].
Qed.

Lemma pulse_where_ok (mask : mat bool) (m m' : mat float64) :
  pulse_where mask m = Ok m' ->
  nrows m' = nrows m /\ ncols m' = ncols m /\
  nrows mask = nrows m /\ ncols mask = ncols m /\
  forall j i, get m' j i = if get mask j i then powerlaw_pulse (get m j i) else get m j i.
Proof.
  unfold pulse_where, same_shape.
  destruct (nrows mask =? nrows m)%nat eqn:Er; [|discriminate].
  destruct (ncols mask =? ncols m)%nat eqn:Ec; [|discriminate].
  apply Nat.eqb_eq in Er, Ec. cbn [andb].
  intros H; injection H as <-. cbn. auto.
Qed.

(** What one step does to the two device arrays: the sign of
    [local_error[j] * pre_filtered[i]] selects the array that is pulsed at
    [(j, i)]. *)
Lemma step_simmpes_devices alpha encoders error pre_filtered s s' :
  step_simmpes alpha encoders error pre_filtered s = Ok s' ->
  exists le,
    local_error alpha encoders error = Ok le /\
    nrows (pos_memristors s') = nrows (pos_memristors s) /\
    ncols (pos_memristors s') = ncols (pos_memristors s) /\
    nrows (neg_memristors s') = nrows (neg_memristors s) /\
    ncols (neg_memristors s') = ncols (neg_memristors s) /\
    forall j i,
      get (pos_memristors s') j i =
        (if gt0 (nth j le 0 * nth i pre_filtered 0)
         then powerlaw_pulse (get (pos_memristors s) j i)
         else get (pos_memristors s) j i) /\
      get (neg_memristors s') j i =
        (if lt0 (nth j le 0 * nth i pre_filtered 0)
         then powerlaw_pulse (get (neg_memristors s) j i)
         else get (neg_memristors s) j i).
Proof.
  intros H. unfold step_simmpes in H.
  apply bind_ok in H as (V & EV & H).
  apply bind_ok in H as (pos & Epos & H).
  apply bind_ok in H as (neg & Eneg & H).
  apply bind_ok in H as (d & _ & H).
  apply bind_ok in H as (delta' & _ & H).
  injection H as <-. cbn [pos_memristors neg_memristors].
  unfold voltage in EV. apply bind_ok in EV as (le & Ele & EV).
  injection EV as <-.
  apply pulse_where_ok in Epos as (Hr & Hc & _ & _ & Hp).
  apply pulse_where_ok in Eneg as (Hr' & Hc' & _ & _ & Hn).
  exists le. repeat split; auto.
  - rewrite Hp. cbn. now rewrite gt0_voltage.
  - rewrite Hn. cbn. now rewrite lt0_voltage.
Qed.

Lemma step_simmpes_within alpha encoders error pre_filtered s s' :
  step_simmpes alpha encoders error pre_filtered s = Ok s' ->
  (forall j i, within_bounds (get (pos_memristors s) j i)) ->
  (forall j i, within_bounds (get (neg_memristors s) j i)) ->
  (forall j i, within_bounds (get (pos_memristors s') j i)) /\
  (forall j i, within_bounds (get (neg_memristors s') j i)).
Proof.
  intros H Hp Hn. apply step_simmpes_devices in H as (le & _ & _ & _ & _ & _ & H).
  split; intros j i; destruct (H j i) as [E1 E2].
  - rewrite E1. destruct (gt0 _); [apply powerlaw_pulse_within|]; apply Hp.
  - rewrite E2. destruct (lt0 _); [apply powerlaw_pulse_within|]; apply Hn.
Qed.

Lemma run_within learning_rate dt encoders inputs : forall s s',
  run learning_rate dt encoders inputs s = Ok s' ->
  (forall j i, within_bounds (get (pos_memristors s) j i)) ->
  (forall j i, within_bounds (get (neg_memristors s) j i)) ->
  (forall j i, within_bounds (get (pos_memristors s') j i)) /\
  (forall j i, within_bounds (get (neg_memristors s') j i)).
Proof.
  unfold run. induction inputs as [|[error pre] inputs IH]; intros s s' H Hp Hn.
  - cbn in H. injection H as <-. auto.
  - cbn [for_each] in H. apply bind_ok in H as (s1 & E & H).
    unfold simmpes in E. apply bind_ok in E as (alpha & _ & E).
    destruct (step_simmpes_within _ _ _ _ _ _ E Hp Hn) as [Hp1 Hn1].
    exact (IH s1 s' H Hp1 Hn1).
Qed.

Lemma initial_resistances_within (u : nat -> nat -> R) (shape : nat * nat) :
  (forall j i, 0 <= u j i < 1) ->
  forall j i, within_bounds (get (initial_resistances u 1e8 1.1e8 shape) j i).
Proof.
  intros Hu j i. cbn. specialize (Hu j i). unfold r_min, r_max. lra.
Qed.
End SimmPESFacts.

Section SimmPESReturns.
Import Nengo.
Local Open Scope R_scope.

Lemma build_mpes_shaped u_pos u_neg out_size in_size :
  shaped out_size in_size (build_mpes u_pos u_neg out_size in_size).
Proof. repeat split. Qed.

(** With the shapes the builder gives the signals, a step returns. *)
Lemma simmpes_returns learning_rate dt encoders error pre_filtered s :
  length pre_filtered <> 0%nat ->
  ncols encoders = length error ->
  shaped (nrows encoders) (length pre_filtered) s ->
  exists s', simmpes learning_rate dt encoders error pre_filtered s = Ok s' /\
             shaped (nrows encoders) (length pre_filtered) s'.
Proof.
  intros Hn Hc ((Hd1 & Hd2) & (Hp1 & Hp2) & (Hn1 & Hn2)).
  unfold simmpes, make_step_alpha, pydiv.
  destruct (Req_dec_T (INR (length pre_filtered)) 0) as [E|_].
  { apply (not_0_INR _ Hn) in E. contradiction. }
  cbn [bind]. unfold step_simmpes, voltage, local_error, dot.
  rewrite Hc, Nat.eqb_refl. cbn [bind].
  unfold pulse_where, same_shape. cbn [mat_map outer nrows ncols].
  rewrite !length_map, length_seq, Hp1, Hp2, Hn1, Hn2, !Nat.eqb_refl.
  cbn [andb bind]. unfold broadcast2. cbn [nrows ncols].
  rewrite !bdim_same. cbn [bind]. unfold assign_all. cbn [nrows ncols].
  rewrite Hd1, Hd2, !Nat.eqb_refl. cbn [orb andb bind].
  eexists. split; [reflexivity|]. repeat split.
Qed.

Lemma run_returns learning_rate dt encoders in_size inputs : forall s,
  in_size <> 0%nat ->
  Forall (fun '(error, pre_filtered) =>
            ncols encoders = length error /\ length pre_filtered = in_size) inputs ->
  shaped (nrows encoders) in_size s ->
  exists s', run learning_rate dt encoders inputs s = Ok s'.
Proof.
  unfold run. induction inputs as [|[error pre] inputs IH]; intros s Hn Hin Hs.
  - cbn. eauto.
  - inversion Hin as [|? ? Hh Hin']; subst. destruct Hh as [Hc Hl]. subst in_size.
    destruct (simmpes_returns learning_rate dt encoders error pre s)
      as (s1 & E & Hs1); auto.
    cbn [for_each]. rewrite E. cbn [bind]. apply IH; auto.
Qed.
End SimmPESReturns.

(** ** The claims on the devices of the operator *)

Section DeviceClaims.
Import Nengo.
Local Open Scope R_scope.

Lemma normalized_conductance_fin (rmax rmin R0 : R) :
  0 < rmin < rmax ->
  rmin <= R0 <= rmax ->
  normalized_conductance rmax rmin (Fin R0) =
    Ok (Fin (1e5 * ((1 / R0 - 1 / rmax) / (1 / rmin - 1 / rmax) + epsilon))).
Proof.
  intros [Hmin Hlt] [H0 H0'].
  unfold normalized_conductance, pydiv. cbn [fdiv].
  destruct (Req_dec_T R0 0) as [E|_]; [lra|].
  destruct (Req_dec_T rmax 0) as [E|_]; [lra|].
  destruct (Req_dec_T rmin 0) as [E|_]; [lra|].
  cbn [bind fsub fneg fadd fdiv].
  assert (Hd : / rmax < / rmin) by (apply Rinv_lt_contravar; nra).
  destruct (Req_dec_T (1 / rmin - 1 / rmax) 0) as [E|_]; [lra|].
  cbn [fadd fmul]. reflexivity.
Qed.

(** C4.  In every run of the operator on the signals the builder creates,
    whatever the draws of the initial resistances, the encoders, the
    learning rate, the time step and the sequence of errors and
    activities, every device of both arrays holds a resistance in
    [[r_min, r_max]] after every step.  The initial draws lie in the
    interval and a pulse maps the interval into itself: the resistance a
    pulse stores is the one clamping to the nearest bound would store, and
    no step aborts on it. *)
Theorem resistance_within_bounds
    (u_pos u_neg : nat -> nat -> R) (out_size in_size : nat)
    (learning_rate dt : R) (encoders : mat R)
    (inputs : list (list R * list R)) (s : crossbar) :
  (forall j i, 0 <= u_pos j i < 1) ->
  (forall j i, 0 <= u_neg j i < 1) ->
  run learning_rate dt encoders inputs (build_mpes u_pos u_neg out_size in_size) = Ok s ->
  (forall j i, (j < out_size)%nat -> (i < in_size)%nat ->
     within_bounds (get (pos_memristors s) j i) /\
     within_bounds (get (neg_memristors s) j i)) /\
  (forall x, within_bounds x ->
     exists r, powerlaw_pulse x = Fin r /\ r_min <= r <= r_max /\
               r = Rmax r_min (Rmin r r_max)).
Proof.
  intros Hp Hn H. split.
  - destruct (run_within _ _ _ _ _ _ H) as [H1 H2].
    + apply initial_resistances_within, Hp.
    + apply initial_resistances_within, Hn.
    + intros j i _ _. auto.
  - intros x Hx. apply powerlaw_pulse_within in Hx.
    destruct (powerlaw_pulse x) as [r| | |]; cbn [within_bounds] in Hx; try contradiction.
    exists r. split; [reflexivity|]. split; [exact Hx|].
    rewrite Rmin_left, Rmax_right; lra.
Qed.

Lemma resistance_within_bounds_witness :
  (forall j i : nat, 0 <= (fun _ _ => 0) j i < 1) /\
  exists s,
    run 1 1 (of_rows 0 [[1]]) [([1], [1]); ([-1], [1])]
      (build_mpes (fun _ _ => 0) (fun _ _ => 0) 1 1) = Ok s /\
    (forall j i, (j < 1)%nat -> (i < 1)%nat ->
       within_bounds (get (pos_memristors s) j i) /\
       within_bounds (get (neg_memristors s) j i)) /\
    (forall x, within_bounds x ->
       exists r, powerlaw_pulse x = Fin r /\ r_min <= r <= r_max /\
                 r = Rmax r_min (Rmin r r_max)).
Proof.
  assert (Hu : forall j i : nat, 0 <= (fun _ _ : nat => 0) j i < 1) by (intros; lra).
  split; [exact Hu|].
  destruct (run_returns 1 1 (of_rows 0 [[1]]) 1 [([1], [1]); ([-1], [1])]
              (build_mpes (fun _ _ => 0) (fun _ _ => 0) 1 1)) as [s Hs].
  - discriminate.
  - repeat constructor.
  - apply build_mpes_shaped.
  - exists s. split; [exact Hs|].
    exact (resistance_within_bounds _ _ 1%nat 1%nat 1 1 _ _ s Hu Hu Hs).
Defined.

Lemma normalized_conductance_default (R0 : R) :
  0 < R0 ->
  normalized_conductance 2.5e8 1e2 (Fin R0) =
    Ok (Fin (1e5 * ((1 / R0 - 1 / 2.5e8) / (1 / 1e2 - 1 / 2.5e8) + epsilon))).
Proof.
  intros H0. unfold normalized_conductance, pydiv. cbn [fdiv].
  destruct (Req_dec_T R0 0) as [E|_]; [lra|].
  destruct (Req_dec_T 2.5e8 0) as [E|_]; [lra|].
  destruct (Req_dec_T 1e2 0) as [E|_]; [lra|].
  cbn [bind fsub fneg fadd fdiv].
  destruct (Req_dec_T (1 / 1e2 - 1 / 2.5e8) 0) as [E|_]; [lra|].
  cbn [fadd fmul]. reflexivity.
Qed.

Lemma epsilon_small : 0 < epsilon < 1e-9.
Proof.
  unfold epsilon.
  assert (H : 2 ^ 52 = 4503599627370496) by (simpl; lra).
  rewrite H. split; [apply Rinv_0_lt_compat; lra|].
  apply (Rmult_lt_reg_r 4503599627370496); [lra|].
  rewrite Rinv_l by lra. lra.
Qed.

(** C7, as the code has it.  With the bounds the rule has by default,
    [r_min = 1e2] and [r_max = 2.5e8], which are the constants of the
    operator, and [R0] in [[r_min, r_max]], [mPES.normalized_conductance]
    returns [gain * ((1/R0 - 1/r_max) / (1/r_min - 1/r_max) + epsilon)] with
    [gain = 1e5]: the machine epsilon is added to the normalised
    conductance.  [resistance2conductance] returns
    [gain * ((1/R0 - 1/r_max) / (1/r_min - 1/r_max))] with [gain = 1e6] and
    no offset.  Neither clips its argument: at twice [r_max] both return a
    negative value, and at half [r_min] both return more than their gain.
    Nothing bounds the denominator: with [r_min = r_max] the quotient of
    [normalized_conductance] is [0/0]. *)
Theorem conductance_conversions (R0 : R) :
  r_min <= R0 <= r_max ->
  normalized_conductance 2.5e8 1e2 (Fin R0) =
    Ok (Fin (1e5 * ((1 / R0 - 1 / 2.5e8) / (1 / 1e2 - 1 / 2.5e8) + epsilon))) /\
  resistance2conductance (Fin R0) =
    Fin (gain * ((1 / R0 - 1 / r_max) / (1 / r_min - 1 / r_max))) /\
  (exists g, normalized_conductance 2.5e8 1e2 (Fin (2 * 2.5e8)) = Ok (Fin g) /\ g < 0) /\
  (exists g, resistance2conductance (Fin (2 * r_max)) = Fin g /\ g < 0) /\
  (exists g, normalized_conductance 2.5e8 1e2 (Fin (1e2 / 2)) = Ok (Fin g) /\ 1e5 < g) /\
  (exists g, resistance2conductance (Fin (r_min / 2)) = Fin g /\ gain < g) /\
  normalized_conductance 1 1 (Fin 1) = Ok NaN.
Proof.
  intros [H1 H1']. pose proof r_min_pos as Hm. pose proof r_max_pos as HM.
  pose proof epsilon_small as He.
  assert (Hd : 0 < 1 / 1e2 - 1 / 2.5e8) by lra.
  split; [apply normalized_conductance_default; lra|].
  split.
  { rewrite resistance2conductance_fin by lra.
    unfold conductance_value, g_min, g_max. f_equal. lra. }
  split.
  { eexists. split; [apply normalized_conductance_default; lra|].
    assert (Hq : (1 / (2 * 2.5e8) - 1 / 2.5e8) / (1 / 1e2 - 1 / 2.5e8) < - 1e-9).
    { set (N := 1 / (2 * 2.5e8) - 1 / 2.5e8). set (D := 1 / 1e2 - 1 / 2.5e8) in *.
      apply (Rmult_lt_reg_r D); [exact Hd|].
      replace (N / D * D) with N by (field; lra). unfold N, D. lra. }
    lra. }
  split.
  { eexists. split; [apply resistance2conductance_fin; lra|].
    unfold conductance_value, g_min, g_max, gain, r_min, r_max. lra. }
  split.
  { eexists. split; [apply normalized_conductance_default; lra|].
    assert (Hq : 1 < (1 / (1e2 / 2) - 1 / 2.5e8) / (1 / 1e2 - 1 / 2.5e8)).
    { set (N := 1 / (1e2 / 2) - 1 / 2.5e8). set (D := 1 / 1e2 - 1 / 2.5e8) in *.
      apply (Rmult_lt_reg_r D); [exact Hd|].
      replace (N / D * D) with N by (field; lra). unfold N, D. lra. }
    lra. }
  split.
  { eexists. split; [apply resistance2conductance_fin; unfold r_min; lra|].
    unfold conductance_value, g_min, g_max, gain, r_min, r_max. lra. }
  unfold normalized_conductance, pydiv. cbn [fdiv].
  destruct (Req_dec_T 1 0) as [E|_]; [lra|].
  cbn [bind fsub fneg fadd fdiv].
  destruct (Req_dec_T (1 / 1 - 1 / 1) 0) as [_|N]; [|lra].
  unfold signed_inf.
  destruct (Rlt_dec 0 (1 / 1 + - (1 / 1))) as [N|_]; [lra|].
  destruct (Rlt_dec (1 / 1 + - (1 / 1)) 0) as [N|_]; [lra|].
  reflexivity.
Qed.

Lemma conductance_conversions_witness :
  r_min <= 1e8 <= r_max /\
  normalized_conductance 2.5e8 1e2 (Fin 1e8) =
    Ok (Fin (1e5 * ((1 / 1e8 - 1 / 2.5e8) / (1 / 1e2 - 1 / 2.5e8) + epsilon))) /\
  resistance2conductance (Fin 1e8) =
    Fin (gain * ((1 / 1e8 - 1 / r_max) / (1 / r_min - 1 / r_max))).
Proof.
  assert (H : r_min <= 1e8 <= r_max) by (unfold r_min, r_max; lra).
  split; [exact H|].
  destruct (conductance_conversions 1e8 H) as (Hn & Hc & _).
  split; [exact Hn | exact Hc].
Defined.

(** C7 fails as stated: with the default bounds, at [R = r_max], where
    the formula of the claim gives [0], [mPES.normalized_conductance]
    returns [gain * epsilon]. *)
Lemma normalized_conductance_adds_offset :
  1e2 <= 2.5e8 <= 2.5e8 /\
  exists g,
    normalized_conductance 2.5e8 1e2 (Fin 2.5e8) = Ok (Fin g) /\
    g <> 1e5 * ((1 / 2.5e8 - 1 / 2.5e8) / (1 / 1e2 - 1 / 2.5e8)).
Proof.
  split; [lra|]. eexists. split.
  - apply normalized_conductance_fin; lra.
  - unfold epsilon.
    assert (0 < / 2 ^ 52) by (apply Rinv_0_lt_compat, pow_lt; lra).
    lra.
Qed.
End DeviceClaims.

(** ** The learning rules *)

Section RuleFacts.
Import Rules.
Variable M : Type.
Variable pulse : M -> signal -> method -> M * Q.
Variable empty_truth : res bool.

Local Abbreviation Rule := (MemristorLearningRule M).
Local Abbreviation pulse_at := (pulse_at M pulse).
Local Abbreviation same_frame := (same_frame M).
Local Abbreviation entry := (entry M).
Local Abbreviation pulse_list := (pulse_list M pulse).
Local Abbreviation apply_pulses := (apply_pulses M pulse).

Lemma same_frame_refl self : same_frame self self.
Proof. repeat split. Qed.

Lemma same_frame_trans s1 s2 s3 :
  same_frame s1 s2 -> same_frame s2 s3 -> same_frame s1 s3.
Proof. unfold same_frame. intuition congruence. Qed.

Lemma pulse_at_ok self self' j i s m :
  pulse_at self j i s m = Ok self' ->
  same_frame self self' /\
  last_error M self' = last_error M self /\
  forall j' i',
    entry self' j' i' =
      if (j' =? j) && (i' =? i) then pulse (get (memristors M self) j i) s m
      else entry self j' i'.
Proof.
  unfold Rules.pulse_at. intros H.
  apply bind_ok in H as (dev & Ed & H).
  apply getitem_ok in Ed as (_ & _ & ->).
  destruct (pulse (get (memristors M self) j i) s m) as [dev' g].
  apply bind_ok in H as (ms & Ems & H). apply bind_ok in H as (w & Ew & H).
  injection H as <-.
  apply setitem_ok in Ems as (Hr & Hc & Hms). apply setitem_ok in Ew as (Hr' & Hc' & Hw).
  split; [repeat split; assumption|]. split; [reflexivity|].
  intros j' i'. unfold entry. cbn. rewrite Hms, Hw.
  now destruct ((j' =? j) && (i' =? i)).
Qed.

Lemma pulse_list_ok m l : forall self self',
  pulse_list m l self = Ok self' ->
  same_frame self self' /\
  last_error M self' = last_error M self /\
  forall j i, entry self' j i = apply_pulses m (signals_at j i l) (entry self j i).
Proof.
  unfold pulse_list. induction l as [|[[j0 i0] s0] l IH]; intros self self' H.
  - cbn in H. injection H as <-. split; [apply same_frame_refl|]. split; reflexivity.
  - cbn [for_each fst snd] in H. apply bind_ok in H as (self1 & E1 & H).
    apply pulse_at_ok in E1 as (F1 & L1 & P1).
    apply IH in H as (F2 & L2 & P2).
    split; [eapply same_frame_trans; eassumption|]. split; [congruence|].
    intros j i. rewrite P2, P1. unfold signals_at. cbn [filter].
    unfold addressed at 2. cbn [fst snd].
    rewrite (Nat.eqb_sym j0 j), (Nat.eqb_sym i0 i).
    destruct ((j =? j0) && (i =? i0)) eqn:E; [|reflexivity].
    apply andb_true_iff in E as [Ej Ei]. apply Nat.eqb_eq in Ej, Ei. subst.
    reflexivity.
Qed.

(** A loop that pulses each of the entries [l] once, with a signal that
    does not depend on the devices. *)
Lemma simple_loop (m : method) (sigf : nat -> nat -> res signal) l : forall self self',
  for_each (fun self '(j, i) => e <- sigf j i ;; pulse_at self j i e m) l self = Ok self' ->
  exists pl,
    pulse_list m pl self = Ok self' /\
    map fst pl = l /\
    Forall (fun p => sigf (fst (fst p)) (snd (fst p)) = Ok (snd p)) pl.
Proof.
  induction l as [|[j i] l IH]; intros self self' H.
  - cbn in H. exists []. repeat split; [exact H | constructor].
  - cbn [for_each] in H. apply bind_ok in H as (self1 & E1 & H).
    apply bind_ok in E1 as (e & Ee & E1).
    apply IH in H as (pl & Hpl & Hmap & Hall).
    exists ((j, i, e) :: pl). split; [|split].
    + unfold pulse_list. cbn [for_each fst snd]. rewrite E1. exact Hpl.
    + cbn. now rewrite Hmap.
    + constructor; [exact Ee | exact Hall].
Qed.

Lemma signals_at_notin j i (pl : list (nat * nat * signal)) :
  ~ In (j, i) (map fst pl) -> signals_at j i pl = [].
Proof.
  induction pl as [|[[j0 i0] s0] pl IH]; intros H; [reflexivity|].
  unfold signals_at. cbn [filter]. unfold addressed at 1. cbn [fst snd].
  destruct ((j0 =? j) && (i0 =? i)) eqn:E.
  - apply andb_true_iff in E as [Ej Ei]. apply Nat.eqb_eq in Ej, Ei. subst.
    exfalso. apply H. now left.
  - apply IH. intros Hin. apply H. now right.
Qed.

Lemma signals_at_once j i (pl : list (nat * nat * signal)) :
  NoDup (map fst pl) -> In (j, i) (map fst pl) ->
  exists e, In (j, i, e) pl /\ signals_at j i pl = [e].
Proof.
  induction pl as [|[[j0 i0] s0] pl IH]; intros Hnd Hin; [contradiction|].
  cbn [map fst] in Hnd, Hin. inversion Hnd as [|? ? Hn Hnd']; subst.
  unfold signals_at. cbn [filter]. unfold addressed at 1. cbn [fst snd].
  destruct Hin as [E|Hin].
  - injection E as -> ->. rewrite !Nat.eqb_refl. cbn [andb map snd].
    exists s0. split; [now left|]. f_equal. now apply signals_at_notin.
  - destruct ((j0 =? j) && (i0 =? i)) eqn:E.
    + apply andb_true_iff in E as [Ej Ei]. apply Nat.eqb_eq in Ej, Ei. subst.
      contradiction.
    + destruct (IH Hnd' Hin) as (e & He & Hs). exists e. split; [now right | exact Hs].
Qed.

(** The loop of the single-sided rules: an entry of [l] receives one
    pulse, any other entry none. *)
Lemma simple_loop_entries (m : method) (sigf : nat -> nat -> res signal) l self self' :
  NoDup l ->
  for_each (fun self '(j, i) => e <- sigf j i ;; pulse_at self j i e m) l self = Ok self' ->
  same_frame self self' /\
  last_error M self' = last_error M self /\
  forall j i,
    (In (j, i) l ->
     exists e, sigf j i = Ok e /\
               entry self' j i = pulse (get (memristors M self) j i) e m) /\
    (~ In (j, i) l -> entry self' j i = entry self j i).
Proof.
  intros Hnd H. apply simple_loop in H as (pl & Hpl & Hmap & Hall).
  apply pulse_list_ok in Hpl as (F & L & P). split; [exact F|]. split; [exact L|].
  intros j i. split; intros Hin.
  - destruct (signals_at_once j i pl) as (e & He & Hs); try (rewrite Hmap; assumption).
    exists e. split.
    + rewrite Forall_forall in Hall. exact (Hall _ He).
    + rewrite P, Hs. reflexivity.
  - rewrite P, signals_at_notin; [reflexivity | now rewrite Hmap].
Qed.
End RuleFacts.

Lemma guarded_loop {S : Type} (body : S -> nat * nat -> res S) (mask : mat bool) (s : S) :
  (if any mask then for_each body (where_ mask) s else Ok s) = for_each body (where_ mask) s.
Proof.
  destruct (any mask) eqn:E; [reflexivity|]. now rewrite any_where.
Qed.

Lemma nth_spiked (v : list Q) (i : nat) :
  nth i (map Rules.spiked v) false = Rules.spiked (nth i v 0%Q).
Proof. exact (map_nth Rules.spiked v 0%Q i). Qed.

Lemma nth_firstn {A : Type} (d : A) (n i : nat) (l : list A) :
  i < n -> nth i (firstn n l) d = nth i l d.
Proof.
  revert i l. induction n as [|n IH]; intros i l H; [lia|].
  destruct l as [|a l]; [now destruct i|].
  destruct i as [|i]; [reflexivity|]. cbn. apply IH. lia.
Qed.

Section SupervisedFacts.
Import Rules.
Variable M : Type.
Variable pulse : M -> signal -> method -> M * Q.
Variable empty_truth : res bool.

Local Abbreviation Rule := (MemristorLearningRule M).
Local Abbreviation pes_signal := (pes_signal M empty_truth).

(** The mask of [find_spikes] when no post-synaptic activity is given. *)
Lemma find_spikes_pre (self : Rule) (input : list Q) mask :
  length input = input_size M self ->
  find_spikes M self input None = Ok mask ->
  nrows mask = output_size M self /\ ncols mask = input_size M self /\
  forall j i, i < input_size M self -> get mask j i = spiked (nth i input 0%Q).
Proof.
  intros Hl H. unfold find_spikes, broadcast2 in H.
  cbn [tile_rows nrows ncols] in H. rewrite length_map, Hl, bdim_one_r, bdim_same in H.
  cbn [bind] in H. injection H as <-. cbn [nrows ncols get]. repeat split.
  intros j i Hi. rewrite (bidx_lt _ _ Hi), andb_true_r.
  apply nth_spiked.
Qed.

(** [mPES.__call__]: the entries of a column whose input spiked receive one
    pulse, with the signal of their row; every other entry keeps its device
    and its weight. *)
Lemma pes_update_entries (encoders : mat Q) (self self' : Rule) (x : list Q) :
  mPES_update M pulse empty_truth encoders self x = Ok self' ->
  input_size M self <= length x ->
  same_frame M self self' /\
  (exists error, squash_error empty_truth (skipn (input_size M self) x) = Ok error /\
                 last_error M self' = Some error) /\
  forall j i,
    (j < output_size M self -> i < input_size M self -> spiked (nth i x 0%Q) = true ->
     exists e, pes_signal encoders self x j = Ok e /\
               entry M self' j i = pulse (get (memristors M self) j i) e Inverse) /\
    (spiked (nth i x 0%Q) = false -> entry M self' j i = entry M self j i).
Proof.
  intros H Hx. unfold mPES_update in H.
  apply bind_ok in H as (error & Eerr & H).
  apply bind_ok in H as (a & Ea & H).
  apply bind_ok in H as (le & Ele & H).
  apply bind_ok in H as (mask & Emask & H).
  rewrite guarded_loop in H.
  apply simple_loop_entries in H as (F & L & P); [|apply where_NoDup].
  apply find_spikes_pre in Emask as (Hr & Hc & Hg); [|now apply firstn_length_le].
  cbn [set_last_error input_size output_size] in Hr, Hc, Hg.
  split; [exact F|]. split; [exists error; split; [exact Eerr | exact L]|].
  intros j i. destruct (P j i) as [Pin Pout]. split.
  - intros Hj Hi Hs. destruct Pin as (e & He & Hp).
    + apply where_In. rewrite Hr, Hc, Hg by exact Hi.
      rewrite nth_firstn by exact Hi. auto.
    + exists e. split; [|exact Hp].
      unfold pes_signal. rewrite Eerr. cbn [bind]. rewrite Ea. cbn [bind].
      rewrite Ele. exact He.
  - intros Hs. apply Pout. intros Hin. apply where_In in Hin as (Hj & Hi & Hin).
    rewrite Hc in Hi. rewrite Hg, nth_firstn in Hin by exact Hi. congruence.
Qed.
End SupervisedFacts.

Section SimmPESSignals.
Import Nengo.
Local Open Scope R_scope.

Lemma local_error_ok alpha encoders error le :
  local_error alpha encoders error = Ok le ->
  ncols encoders = length error /\
  length le = nrows encoders /\
  forall j, (j < nrows encoders)%nat -> nth j le 0 = alpha * dot_row encoders error j.
Proof.
  unfold local_error, dot. destruct (ncols encoders =? length error)%nat eqn:E; [|discriminate].
  apply Nat.eqb_eq in E. cbn [bind]. intros H; injection H as <-.
  split; [exact E|]. split; [now rewrite !length_map, length_seq|].
  intros j Hj. rewrite map_map.
  rewrite (nth_indep _ 0 (alpha * dot_row encoders error 0%nat))
    by now rewrite length_map, length_seq.
  rewrite (map_nth (fun k => alpha * dot_row encoders error k) (seq 0 (nrows encoders)) 0%nat j).
  now rewrite seq_nth.
Qed.

Lemma fold_zero (l : list R) (acc : R) :
  Forall (fun t => t = 0) l -> fold_left Rplus l acc = acc.
Proof.
  revert acc. induction l as [|t l IH]; intros acc H; [reflexivity|].
  inversion H as [|? ? Ht Hl]; subst. cbn. rewrite IH by exact Hl. lra.
Qed.

Lemma dot_row_zero (encoders : mat R) (error : list R) (j : nat) :
  (forall i, nth i error 0 = 0) -> dot_row encoders error j = 0.
Proof.
  intros H. unfold dot_row. apply fold_zero.
  apply Forall_forall. intros t Ht. apply in_map_iff in Ht as (i & <- & _).
  rewrite H. lra.
Qed.

(** [make_step] and one step: the scale factor is
    [- learning_rate * dt / n_neurons], the local error of row [j] is the
    scale factor times [(encoders . error)[j]], and the device arrays are
    pulsed by the sign of [local_error[j] * pre_filtered[i]]. *)
Lemma simmpes_devices learning_rate dt encoders error pre_filtered s s' :
  simmpes learning_rate dt encoders error pre_filtered s = Ok s' ->
  exists alpha le,
    alpha = - learning_rate * dt / INR (length pre_filtered) /\
    length pre_filtered <> 0%nat /\
    local_error alpha encoders error = Ok le /\
    (forall j, (j < nrows encoders)%nat -> nth j le 0 = alpha * dot_row encoders error j) /\
    forall j i,
      get (pos_memristors s') j i =
        (if gt0 (nth j le 0 * nth i pre_filtered 0)
         then powerlaw_pulse (get (pos_memristors s) j i)
         else get (pos_memristors s) j i) /\
      get (neg_memristors s') j i =
        (if lt0 (nth j le 0 * nth i pre_filtered 0)
         then powerlaw_pulse (get (neg_memristors s) j i)
         else get (neg_memristors s) j i).
Proof.
  intros H. unfold simmpes in H. apply bind_ok in H as (alpha & Ea & H).
  unfold make_step_alpha, pydiv in Ea.
  destruct (Req_dec_T (INR (length pre_filtered)) 0) as [E|N]; [discriminate|].
  injection Ea as <-.
  apply step_simmpes_devices in H as (le & Ele & _ & _ & _ & _ & Hd).
  eexists _, le. split; [reflexivity|]. split.
  - intros E. apply N. now rewrite E.
  - split; [exact Ele|]. split; [|exact Hd].
    now apply local_error_ok in Ele as (_ & _ & Hle).
Qed.

Lemma make_step_alpha_ok learning_rate dt pre_filtered :
  length pre_filtered <> 0%nat ->
  make_step_alpha learning_rate dt pre_filtered
    = Ok (- learning_rate * dt / INR (length pre_filtered)).
Proof.
  intros Hn. unfold make_step_alpha, pydiv.
  destruct (Req_dec_T (INR (length pre_filtered)) 0) as [E|_]; [|reflexivity].
  exfalso. exact (not_0_INR _ Hn E).
Qed.

Lemma simmpes_single_synapse (e p : R) :
  exists s',
    simmpes 1 1 (of_rows 0 [[1]]) [e] [p] single_synapse = Ok s' /\
    local_error (- 1 * 1 / INR 1) (of_rows 0 [[1]]) [e] = Ok [- 1 * 1 / INR 1 * (0 + 1 * e)] /\
    (e * p < 0 -> get (pos_memristors s') 0%nat 0%nat <> get (pos_memristors single_synapse) 0%nat 0%nat) /\
    (0 < e * p -> get (neg_memristors s') 0%nat 0%nat <> get (neg_memristors single_synapse) 0%nat 0%nat).
Proof.
  destruct (simmpes_returns 1 1 (of_rows 0 [[1]]) [e] [p] single_synapse)
    as (s' & Hs & _); [discriminate | reflexivity | apply build_mpes_shaped |].
  exists s'. split; [exact Hs|]. split; [reflexivity|].
  apply simmpes_devices in Hs as (alpha & le & -> & _ & Ele & _ & Hd).
  cbn in Ele. injection Ele as <-.
  destruct (Hd 0%nat 0%nat) as [Hp Hn]. cbn [nth] in Hp, Hn.
  assert (Hpulse : powerlaw_pulse (Fin (1e8 + (1.1e8 - 1e8) * 0)) <> Fin (1e8 + (1.1e8 - 1e8) * 0)).
  { rewrite powerlaw_pulse_fin by (unfold r_min; lra).
    pose proof (pulse_value_bounds (1e8 + (1.1e8 - 1e8) * 0)) as Hb.
    intros E. injection E as E. rewrite E in Hb.
    assert (r_min < 1e8 + (1.1e8 - 1e8) * 0) by (unfold r_min; lra). lra. }
  cbn [length INR] in Hp, Hn.
  split; intros Hep.
  - rewrite Hp. unfold gt0.
    destruct (Rlt_dec 0 _) as [_|N]; [exact Hpulse | lra].
  - rewrite Hn. unfold lt0.
    destruct (Rlt_dec _ 0) as [_|N]; [exact Hpulse | lra].
Qed.
End SimmPESSignals.

Section SupervisedSignal.
Import Rules.
Variable M : Type.
Variable pulse : M -> signal -> method -> M * Q.
Variable empty_truth : res bool.

Local Abbreviation Rule := (MemristorLearningRule M).

Lemma squash_error_single (e : Q) :
  squash_error empty_truth [e] =
    Ok (if gt (Qabs e) (1 # 100000) then ErrArray [e] else ErrZero).
Proof. reflexivity. Qed.

Lemma squash_error_many (e1 e2 : Q) (l : list Q) :
  squash_error empty_truth (e1 :: e2 :: l) = Raise ValueError.
Proof. reflexivity. Qed.

(** Above the threshold the signal of row [j] is the number
    [(learning_rate * dt / input_size) * (encoders . error)[j]]. *)
Lemma pes_signal_above (encoders : mat Q) (self : Rule) (x : list Q) (j : nat) e sig :
  skipn (input_size M self) x = [e] ->
  gt (Qabs e) (1 # 100000) = true ->
  pes_signal M empty_truth encoders self x j = Ok sig ->
  sig = SNum (learning_rate M self * dt M self / inject_Z (Z.of_nat (input_size M self))
              * dot_row encoders [e] j).
Proof.
  intros Hx He H. unfold pes_signal in H. rewrite Hx, squash_error_single, He in H.
  cbn [bind] in H. apply bind_ok in H as (a & Ea & H).
  unfold pydiv in Ea. destruct (Qeq_bool _ 0); [discriminate|]. injection Ea as <-.
  apply bind_ok in H as (le & Ele & H). cbn [mPES_local_error] in Ele.
  apply bind_ok in Ele as (d & Ed & Ele). injection Ele as <-.
  unfold dot in Ed. destruct (ncols encoders =? length [e]); [|discriminate].
  injection Ed as <-. cbn [local_error_at] in H.
  apply bind_ok in H as (q & Eq & H). injection H as <-.
  unfold getitem1 in Eq. rewrite map_map in Eq.
  destruct (nth_error _ j) as [q'|] eqn:En; [|discriminate]. injection Eq as <-.
  rewrite nth_error_map in En.
  destruct (nth_error (seq 0 (nrows encoders)) j) as [k|] eqn:Ek; [|discriminate].
  cbn in En. injection En as <-.
  assert (Hj : j < length (seq 0 (nrows encoders))) by (apply nth_error_Some; congruence).
  apply (nth_error_nth _ _ 0) in Ek. rewrite seq_nth in Ek by now rewrite length_seq in Hj.
  cbn in Ek. now subst k.
Qed.

(** At or below the threshold the recorded error is the integer [0] and the
    signal of every row is a row of zeros. *)
Lemma pes_signal_squashed (encoders : mat Q) (self : Rule) (x : list Q) (j : nat) e sig :
  skipn (input_size M self) x = [e] ->
  gt (Qabs e) (1 # 100000) = false ->
  pes_signal M empty_truth encoders self x j = Ok sig ->
  exists v, sig = SVec v /\ Forall (fun q => q == 0)%Q v.
Proof.
  intros Hx He H. unfold pes_signal in H. rewrite Hx, squash_error_single, He in H.
  cbn [bind] in H. apply bind_ok in H as (a & _ & H).
  cbn [mPES_local_error bind local_error_at mat_map nrows ncols get] in H.
  destruct (j <? nrows encoders); [|discriminate]. injection H as <-.
  eexists. split; [reflexivity|].
  apply Forall_forall. intros q Hq. apply in_map_iff in Hq as (i & <- & _).
  ring.
Qed.
(** A pulse on an entry within both arrays returns. *)
Lemma pulse_at_returns (self : Rule) j i s m :
  j < nrows (memristors M self) -> i < ncols (memristors M self) ->
  j < nrows (weights M self) -> i < ncols (weights M self) ->
  exists self', pulse_at M pulse self j i s m = Ok self'.
Proof.
  intros Hj Hi Hj' Hi'. unfold pulse_at, getitem, setitem, in_range.
  apply Nat.ltb_lt in Hj, Hi, Hj', Hi'. rewrite Hj, Hi, Hj', Hi'. cbn [andb bind].
  destruct (pulse (get (memristors M self) j i) s m) as [dev' g]. cbn [bind]. eauto.
Qed.

Lemma simple_loop_returns (m : method) (sigf : nat -> nat -> res signal) l :
  forall self : Rule,
  (forall j i, In (j, i) l ->
     j < nrows (memristors M self) /\ i < ncols (memristors M self) /\
     j < nrows (weights M self) /\ i < ncols (weights M self) /\
     exists e, sigf j i = Ok e) ->
  exists self',
    for_each (fun self '(j, i) => e <- sigf j i ;; pulse_at M pulse self j i e m) l self
      = Ok self'.
Proof.
  induction l as [|[j i] l IH]; intros self H; [cbn; eauto|].
  destruct (H j i (or_introl eq_refl)) as (Hj & Hi & Hj' & Hi' & e & He).
  destruct (pulse_at_returns self j i e m Hj Hi Hj' Hi') as [self1 E1].
  cbn [for_each]. rewrite He. cbn [bind]. rewrite E1. cbn [bind].
  apply pulse_at_ok in E1 as ((_ & _ & _ & _ & W1 & W2 & M1 & M2) & _).
  apply IH. intros j' i' Hin. rewrite M1, M2, W1, W2. apply H. now right.
Qed.

(** On a rule whose weight and device arrays have the shape
    [(output_size, input_size)], with one encoder per output neuron and an
    input of [input_size] activities followed by one error, the step of
    [mPES] returns. *)
Lemma mPES_update_returns (encoders : mat Q) (self : Rule) (x : list Q) :
  input_size M self <> 0 ->
  length x = S (input_size M self) ->
  nrows encoders = output_size M self -> ncols encoders = 1 ->
  nrows (weights M self) = output_size M self ->
  ncols (weights M self) = input_size M self ->
  nrows (memristors M self) = output_size M self ->
  ncols (memristors M self) = input_size M self ->
  exists self', mPES_update M pulse empty_truth encoders self x = Ok self'.
Proof.
  intros Hn Hx Her Hec Hwr Hwc Hmr Hmc.
  assert (Hskip : exists e, skipn (input_size M self) x = [e]).
  { pose proof (length_skipn (input_size M self) x) as Hl.
    destruct (skipn (input_size M self) x) as [|e [|e' l]]; cbn in Hl; try lia.
    now exists e. }
  destruct Hskip as [e He].
  unfold mPES_update. rewrite He, squash_error_single. cbn [bind].
  unfold pydiv.
  assert (Hz : Qeq_bool (inject_Z (Z.of_nat (input_size M self))) 0 = false).
  { destruct (Qeq_bool _ 0) eqn:E; [|reflexivity].
    apply Qeq_bool_eq in E. unfold Qeq in E. cbn in E. lia. }
  rewrite Hz. cbn [bind].
  set (a := (learning_rate M self * dt M self
             / inject_Z (Z.of_nat (input_size M self)))%Q).
  set (error := if gt (Qabs e) (1 # 100000) then ErrArray [e] else ErrZero).
  assert (Hle : exists le,
    mPES_local_error encoders a error = Ok le /\
    forall j, j < output_size M self -> exists sig, local_error_at le j = Ok sig).
  { unfold error. destruct (gt (Qabs e) (1 # 100000)); cbn [mPES_local_error].
    - unfold dot. rewrite Hec. cbn [length Nat.eqb bind]. eexists. split; [reflexivity|].
      intros j Hj. cbn [local_error_at]. unfold getitem1.
      destruct (nth_error _ j) as [q|] eqn:En; [cbn; eauto|].
      apply nth_error_None in En. rewrite !length_map, length_seq, Her in En. lia.
    - eexists. split; [reflexivity|]. intros j Hj. cbn [local_error_at mat_map nrows].
      rewrite Her. apply Nat.ltb_lt in Hj. rewrite Hj. eauto. }
  destruct Hle as (le & Ele & Hsig). rewrite Ele. cbn [bind].
  destruct (find_spikes M (set_last_error M self error) (firstn (input_size M self) x) None)
    as [mask|] eqn:Em.
  - cbn [bind]. rewrite guarded_loop.
    apply find_spikes_pre in Em as (Hr & Hc & _); [|apply firstn_length_le; cbn; lia].
    cbn [set_last_error input_size output_size] in Hr, Hc.
    apply simple_loop_returns. intros j i Hin.
    apply where_In in Hin as (Hj & Hi & _). rewrite Hr in Hj. rewrite Hc in Hi.
    cbn [set_last_error memristors weights]. rewrite Hmr, Hmc, Hwr, Hwc.
    repeat split; auto.
  - exfalso. unfold find_spikes, broadcast2 in Em. cbn [tile_rows nrows ncols] in Em.
    rewrite length_map, firstn_length_le in Em by (cbn; lia).
    cbn [set_last_error input_size output_size] in Em.
    rewrite bdim_one_r, bdim_same in Em. discriminate.
Qed.
End SupervisedSignal.

(** ** The claims on the supervised rule *)

(** The example device ignores a row of zeros. *)
Lemma stepper_ignores_zero (dev : Z) (v : list Q) :
  Forall (fun q => q == 0)%Q v -> fst (stepper dev (Rules.SVec v) Rules.Inverse) = dev.
Proof.
  intros H. cbn. destruct v as [|q v]; cbn; [apply Z.sub_0_r|].
  inversion H as [|? ? Hq _]; subst. unfold Qeq in Hq. cbn in Hq.
  rewrite Z.mul_1_r in Hq. rewrite Hq. apply Z.sub_0_r.
Qed.

Section SupervisedClaims.
Import Rules.

(** C9.  When the error slice [x[input_size:]] has more than one element the
    test of the threshold has no truth value and the step of [mPES] raises
    [ValueError] instead of returning an output. *)
Theorem mPES_call_ambiguous_error (M : Type) (pulse : M -> signal -> method -> M * Q)
      (empty_truth : res bool) (encoders : mat Q) (self : MemristorLearningRule M) (x : list Q) :
  1 < length (skipn (input_size M self) x) ->
  mPES_call M pulse empty_truth encoders self x = Raise ValueError.
Proof.
  intros H. unfold mPES_call, mPES_update.
  destruct (skipn (input_size M self) x) as [|e1 [|e2 l]]; cbn in H; try lia.
  now rewrite squash_error_many.
Qed.

Lemma mPES_call_ambiguous_error_witness :
  1 < length (skipn (input_size Z (fresh_rule 1 1)) [1; 1; 1]%Q) /\
  mPES_call Z stepper (Ok false) (of_rows 0%Q [[1%Q]]) (fresh_rule 1 1) [1; 1; 1]%Q
    = Raise ValueError.
Proof.
  assert (H : 1 < length (skipn (input_size Z (fresh_rule 1 1)) [1; 1; 1]%Q)) by (cbn; lia).
  split; [exact H|].
  exact (mPES_call_ambiguous_error Z stepper (Ok false) _ (fresh_rule 1 1) _ H).
Defined.
End SupervisedClaims.

Section SupervisedBothClaims.
Import Rules.

(** C2, as the code has it.  In [mPES.__call__] an entry [(j, i)] whose
    input rounds to a spike is pulsed once and its weight overwritten with
    the conductance the device returns; an entry whose input does not round
    to a spike keeps its device and its weight, whatever the error.  The
    operator [SimmPES] does not round the activities: it pulses the
    positive device of [(j, i)] when [local_error[j] * pre_filtered[i]] is
    positive, the negative device when it is negative, and leaves every
    other device state as it was. *)
Theorem supervised_gating
      (M : Type) (pulse : M -> signal -> method -> M * Q) (empty_truth : res bool)
      (encoders : mat Q) (self self' : MemristorLearningRule M) (x : list Q)
      (learning_rate dt : R) (encoders' : mat R) (error pre_filtered : list R)
      (s s' : Nengo.crossbar) :
  mPES_update M pulse empty_truth encoders self x = Ok self' ->
  input_size M self <= length x ->
  Nengo.simmpes learning_rate dt encoders' error pre_filtered s = Ok s' ->
  (forall j i,
     (j < output_size M self -> i < input_size M self -> spiked (nth i x 0%Q) = true ->
      exists e, entry M self' j i = pulse (get (memristors M self) j i) e Inverse) /\
     (spiked (nth i x 0%Q) = false -> entry M self' j i = entry M self j i)) /\
  (exists le,
     Nengo.local_error (- learning_rate * dt / INR (length pre_filtered))%R encoders' error
       = Ok le /\
     forall j i,
       get (Nengo.pos_memristors s') j i =
         (if Nengo.gt0 (nth j le 0 * nth i pre_filtered 0)%R
          then Nengo.powerlaw_pulse (get (Nengo.pos_memristors s) j i)
          else get (Nengo.pos_memristors s) j i) /\
       get (Nengo.neg_memristors s') j i =
         (if Nengo.lt0 (nth j le 0 * nth i pre_filtered 0)%R
          then Nengo.powerlaw_pulse (get (Nengo.neg_memristors s) j i)
          else get (Nengo.neg_memristors s) j i)).
Proof.
  intros H Hx Hs. split.
  - apply pes_update_entries in H as (_ & _ & P); [|exact Hx].
    intros j i. destruct (P j i) as [Pin Pout]. split; [|exact Pout].
    intros Hj Hi Hsp. destruct (Pin Hj Hi Hsp) as (e & _ & He). now exists e.
  - apply simmpes_devices in Hs as (alpha & le & -> & _ & Ele & _ & Hd).
    exists le. split; [exact Ele | exact Hd].
Qed.

Lemma supervised_gating_witness :
  exists self' s',
    mPES_update Z stepper (Ok false) (of_rows 0%Q [[1%Q]]) (fresh_rule 2 1) [1; 0; 1]%Q
      = Ok self' /\
    input_size Z (fresh_rule 2 1) <= length [1; 0; 1]%Q /\
    Nengo.simmpes 1 1 (of_rows 0%R [[1%R]]) [1%R] [1%R] single_synapse = Ok s' /\
    (exists e, entry Z self' 0 0 = stepper 0 e Inverse) /\
    entry Z self' 0 1 = entry Z (fresh_rule 2 1) 0 1.
Proof.
  destruct (mPES_update Z stepper (Ok false) (of_rows 0%Q [[1%Q]]) (fresh_rule 2 1) [1; 0; 1]%Q)
    as [self'|] eqn:E; [|vm_compute in E; discriminate].
  destruct (simmpes_single_synapse 1 1) as (s' & Hs & _).
  assert (Hx : input_size Z (fresh_rule 2 1) <= length [1; 0; 1]%Q) by (cbn; lia).
  exists self', s'. split; [reflexivity|]. split; [exact Hx|]. split; [exact Hs|].
  destruct (supervised_gating Z stepper (Ok false) _ _ self' _ _ _ _ _ _ _ s' E Hx Hs)
    as [P _].
  split.
  - destruct (P 0 0) as [Pin _]. apply Pin; [cbn; lia | cbn; lia | reflexivity].
  - destruct (P 0 1) as [_ Pout]. apply Pout. reflexivity.
Defined.

(** C2 fails as stated on [SimmPES]: an activity of [1/4] does not round to
    a spike, and yet the negative device of the synapse is pulsed. *)
Lemma simmpes_pulses_unspiked_input :
  spiked (1 # 4) = false /\
  exists s',
    Nengo.simmpes 1 1 (of_rows 0%R [[1%R]]) [1%R] [Q2R (1 # 4)] single_synapse = Ok s' /\
    get (Nengo.neg_memristors s') 0 0 <> get (Nengo.neg_memristors single_synapse) 0 0.
Proof.
  split; [reflexivity|].
  destruct (simmpes_single_synapse 1 (Q2R (1 # 4))) as (s' & Hs & _ & _ & Hn).
  exists s'. split; [exact Hs|]. apply Hn. unfold Q2R. cbn. lra.
Qed.
End SupervisedBothClaims.

Section ErrorClaims.
Import Rules.

Lemma gt_false_iff (x y : Q) : gt x y = false <-> (x <= y)%Q.
Proof.
  unfold gt. rewrite negb_false_iff. apply Qle_bool_iff.
Qed.

Lemma gt_true_iff (x y : Q) : gt x y = true <-> (y < x)%Q.
Proof.
  unfold gt. rewrite negb_true_iff. split.
  - intros H. apply Qnot_le_lt. intros Hle. apply Qle_bool_iff in Hle. congruence.
  - intros H. destruct (Qle_bool x y) eqn:E; [|reflexivity].
    apply Qle_bool_iff in E. exfalso. exact (Qlt_not_le _ _ H E).
Qed.

(** C3, as the code has it.  In [mPES.__call__], when the one element of
    the error slice has magnitude at most [1e-5], the recorded error is
    [0], every entry whose input rounds to a spike is still pulsed, with a
    row of zeros as its signal, and every other entry is untouched; a
    device that ignores such a signal keeps its state.  The operator
    [SimmPES] has no threshold: the local error of row [j] is the scale
    factor times [(encoders . error)[j]] whatever the magnitude of the
    error, and the sign of [local_error[j] * pre_filtered[i]] alone decides
    which device of [(j, i)] is pulsed; it leaves all device states
    unchanged when the error is exactly zero. *)
Theorem error_squashing
      (M : Type) (pulse : M -> signal -> method -> M * Q) (empty_truth : res bool)
      (encoders : mat Q) (self self' : MemristorLearningRule M) (x : list Q) (e : Q)
      (learning_rate dt : R) (encoders' : mat R) (error pre_filtered : list R)
      (s s' : Nengo.crossbar) :
  mPES_update M pulse empty_truth encoders self x = Ok self' ->
  input_size M self <= length x ->
  skipn (input_size M self) x = [e] ->
  (Qabs e <= 1 # 100000)%Q ->
  Nengo.simmpes learning_rate dt encoders' error pre_filtered s = Ok s' ->
  last_error M self' = Some ErrZero /\
  (forall j i,
     (j < output_size M self -> i < input_size M self -> spiked (nth i x 0%Q) = true ->
      exists v, Forall (fun q => q == 0)%Q v /\
                entry M self' j i = pulse (get (memristors M self) j i) (SVec v) Inverse) /\
     (spiked (nth i x 0%Q) = false -> entry M self' j i = entry M self j i)) /\
  ((forall dev v, Forall (fun q => q == 0)%Q v -> fst (pulse dev (SVec v) Inverse) = dev) ->
   forall j i, j < output_size M self -> i < input_size M self ->
     get (memristors M self') j i = get (memristors M self) j i) /\
  ((forall k, nth k error 0%R = 0%R) ->
   forall j i,
     get (Nengo.pos_memristors s') j i = get (Nengo.pos_memristors s) j i /\
     get (Nengo.neg_memristors s') j i = get (Nengo.neg_memristors s) j i) /\
  (exists le,
     Nengo.local_error (- learning_rate * dt / INR (length pre_filtered))%R encoders' error
       = Ok le /\
     (forall j, j < nrows encoders' ->
        nth j le 0%R =
          (- learning_rate * dt / INR (length pre_filtered)
           * Nengo.dot_row encoders' error j)%R) /\
     forall j i,
       get (Nengo.pos_memristors s') j i =
         (if Nengo.gt0 (nth j le 0 * nth i pre_filtered 0)%R
          then Nengo.powerlaw_pulse (get (Nengo.pos_memristors s) j i)
          else get (Nengo.pos_memristors s) j i) /\
       get (Nengo.neg_memristors s') j i =
         (if Nengo.lt0 (nth j le 0 * nth i pre_filtered 0)%R
          then Nengo.powerlaw_pulse (get (Nengo.neg_memristors s) j i)
          else get (Nengo.neg_memristors s) j i)).
Proof.
  intros H Hx He Habs Hs. apply gt_false_iff in Habs.
  apply pes_update_entries in H as (_ & (err & Eerr & L) & P); [|exact Hx].
  rewrite He, squash_error_single, Habs in Eerr. injection Eerr as <-.
  assert (Hgated : forall j i,
    j < output_size M self -> i < input_size M self -> spiked (nth i x 0%Q) = true ->
    exists v, Forall (fun q => q == 0)%Q v /\
              entry M self' j i = pulse (get (memristors M self) j i) (SVec v) Inverse).
  { intros j i Hj Hi Hsp. destruct (P j i) as [Pin _].
    destruct (Pin Hj Hi Hsp) as (sig & Hsig & Hent).
    destruct (pes_signal_squashed M empty_truth encoders self x j e sig He Habs Hsig)
      as (v & -> & Hv).
    now exists v. }
  apply simmpes_devices in Hs as (alpha & le & -> & _ & Ele & Hle & Hd).
  split; [exact L|]. split; [|split; [|split]].
  - intros j i. split; [apply Hgated | apply (P j i)].
  - intros Hdev j i Hj Hi. destruct (spiked (nth i x 0%Q)) eqn:Hsp.
    + destruct (Hgated j i Hj Hi Hsp) as (v & Hv & Hent).
      apply (f_equal fst) in Hent. cbn [entry fst] in Hent. rewrite Hent. now apply Hdev.
    + destruct (P j i) as [_ Pout]. specialize (Pout Hsp).
      apply (f_equal fst) in Pout. exact Pout.
  - intros Hz j i. destruct (Hd j i) as [Hp Hn].
    assert (H0 : (nth j le 0 * nth i pre_filtered 0)%R = 0%R).
    { pose proof Ele as Ele'. apply local_error_ok in Ele' as (_ & Hlen & _).
      destruct (Nat.lt_ge_cases j (nrows encoders')) as [Hj|Hj].
      - rewrite (Hle j Hj), dot_row_zero by exact Hz. lra.
      - rewrite nth_overflow by lia. lra. }
    rewrite H0 in Hp, Hn. unfold Nengo.gt0 in Hp. unfold Nengo.lt0 in Hn.
    destruct (Rlt_dec 0 0) as [N|_]; [lra|]. auto.
  - exists le. split; [exact Ele|]. split; [exact Hle | exact Hd].
Qed.

Lemma error_squashing_witness :
  exists self' s' s2,
    mPES_update Z stepper (Ok false) (of_rows 0%Q [[1%Q]]) (fresh_rule 2 1) [1; 0; 0]%Q
      = Ok self' /\
    Nengo.simmpes 1 1 (of_rows 0%R [[1%R]]) [0%R] [1%R] single_synapse = Ok s' /\
    Nengo.simmpes 1 1 (of_rows 0%R [[1%R]]) [Q2R (1 # 1000000)] [1%R] single_synapse
      = Ok s2 /\
    last_error Z self' = Some ErrZero /\
    (forall j i, j < 1 -> i < 2 ->
       get (memristors Z self') j i = get (memristors Z (fresh_rule 2 1)) j i) /\
    get (Nengo.neg_memristors s') 0 0 = get (Nengo.neg_memristors single_synapse) 0 0 /\
    get (Nengo.neg_memristors s2) 0 0
      = Nengo.powerlaw_pulse (get (Nengo.neg_memristors single_synapse) 0 0).
Proof.
  destruct (mPES_update Z stepper (Ok false) (of_rows 0%Q [[1%Q]]) (fresh_rule 2 1) [1; 0; 0]%Q)
    as [self'|] eqn:E; [|vm_compute in E; discriminate].
  destruct (simmpes_single_synapse 0 1) as (s' & Hs & _).
  destruct (simmpes_single_synapse (Q2R (1 # 1000000)) 1) as (s2 & Hs2 & _).
  assert (Hx : input_size Z (fresh_rule 2 1) <= length [1; 0; 0]%Q) by (cbn; lia).
  assert (He : skipn (input_size Z (fresh_rule 2 1)) [1; 0; 0]%Q = [0%Q]) by reflexivity.
  assert (Ha : (Qabs 0 <= 1 # 100000)%Q) by (cbn; discriminate).
  assert (Hz : forall k, nth k [0%R] 0%R = 0%R) by (intros [|[|k]]; reflexivity).
  exists self', s', s2. split; [reflexivity|]. split; [exact Hs|]. split; [exact Hs2|].
  destruct (error_squashing Z stepper (Ok false) _ _ self' _ _ _ _ _ _ _ _ s' E Hx He Ha Hs)
    as (L & _ & D & N & _).
  split; [exact L|]. split; [exact (D stepper_ignores_zero)|]. split; [apply (N Hz)|].
  destruct (error_squashing Z stepper (Ok false) _ _ self' _ _ _ _ _ _ _ _ s2 E Hx He Ha Hs2)
    as (_ & _ & _ & _ & le & _ & Hle & Hd).
  destruct (Hd 0 0) as [_ Hn]. rewrite Hn, (Hle 0) by (cbn; lia).
  assert (Hq : (0 < Q2R (1 # 1000000))%R).
  { unfold Q2R. cbn. apply Rmult_lt_0_compat; [lra|]. apply Rinv_0_lt_compat. lra. }
  unfold Nengo.lt0. destruct (Rlt_dec _ 0) as [_|Nn]; [reflexivity|].
  exfalso. apply Nn. unfold Nengo.dot_row. cbn. lra.
Defined.

(** C3 fails as stated on [SimmPES]: an error of [1e-6] gives a non-zero
    local error and moves the negative device of the synapse. *)
Lemma simmpes_has_no_threshold :
  (Qabs (1 # 1000000) < 1 # 100000)%Q /\
  exists s' le,
    Nengo.simmpes 1 1 (of_rows 0%R [[1%R]]) [Q2R (1 # 1000000)] [1%R] single_synapse = Ok s' /\
    Nengo.local_error (- 1 * 1 / INR 1)%R (of_rows 0%R [[1%R]]) [Q2R (1 # 1000000)] = Ok [le] /\
    le <> 0%R /\
    get (Nengo.neg_memristors s') 0 0 <> get (Nengo.neg_memristors single_synapse) 0 0.
Proof.
  split; [reflexivity|].
  destruct (simmpes_single_synapse (Q2R (1 # 1000000)) 1) as (s' & Hs & Hle & _ & Hn).
  exists s'. eexists. split; [exact Hs|]. split; [exact Hle|].
  assert (Hq : (0 < Q2R (1 # 1000000))%R).
  { unfold Q2R. cbn. apply Rmult_lt_0_compat; [lra|]. apply Rinv_0_lt_compat. lra. }
  split; [cbn; lra | apply Hn; lra].
Qed.
End ErrorClaims.

Section ScaleClaims.
Import Rules.

(** C6, as the code has it.  In [mPES.__call__], for an error above the
    threshold, the signal of every pulsed entry of row [j] is
    [(learning_rate * dt / input_size) * (encoders . error)[j]], with a
    positive scale factor.  In the operator [SimmPES] the scale factor
    [make_step] computes is [- learning_rate * dt / n_neurons], [n_neurons]
    being the number of pre-synaptic activities; the local error of row [j]
    is that negative factor times [(encoders . error)[j]], and it is the
    sign of this local error times [pre_filtered[i]] that selects the
    device the step pulses. *)
Theorem local_error_scale
      (M : Type) (pulse : M -> signal -> method -> M * Q) (empty_truth : res bool)
      (encoders : mat Q) (self self' : MemristorLearningRule M) (x : list Q) (e : Q)
      (learning_rate' dt' : R) (encoders' : mat R) (error pre_filtered : list R)
      (s s' : Nengo.crossbar) :
  mPES_update M pulse empty_truth encoders self x = Ok self' ->
  input_size M self <= length x ->
  skipn (input_size M self) x = [e] ->
  (1 # 100000 < Qabs e)%Q ->
  Nengo.simmpes learning_rate' dt' encoders' error pre_filtered s = Ok s' ->
  (forall j i,
     j < output_size M self -> i < input_size M self -> spiked (nth i x 0%Q) = true ->
     entry M self' j i =
       pulse (get (memristors M self) j i)
         (SNum (learning_rate M self * dt M self / inject_Z (Z.of_nat (input_size M self))
                * dot_row encoders [e] j)%Q)
         Inverse) /\
  (exists alpha le,
     Nengo.make_step_alpha learning_rate' dt' pre_filtered = Ok alpha /\
     alpha = (- learning_rate' * dt' / INR (length pre_filtered))%R /\
     Nengo.local_error alpha encoders' error = Ok le /\
     (forall j, j < nrows encoders' ->
        nth j le 0%R =
          (- learning_rate' * dt' / INR (length pre_filtered)
           * Nengo.dot_row encoders' error j)%R) /\
     forall j i,
       get (Nengo.pos_memristors s') j i =
         (if Nengo.gt0 (nth j le 0 * nth i pre_filtered 0)%R
          then Nengo.powerlaw_pulse (get (Nengo.pos_memristors s) j i)
          else get (Nengo.pos_memristors s) j i) /\
       get (Nengo.neg_memristors s') j i =
         (if Nengo.lt0 (nth j le 0 * nth i pre_filtered 0)%R
          then Nengo.powerlaw_pulse (get (Nengo.neg_memristors s) j i)
          else get (Nengo.neg_memristors s) j i)).
Proof.
  intros H Hx He Habs Hs. apply gt_true_iff in Habs. split.
  - apply pes_update_entries in H as (_ & _ & P); [|exact Hx].
    intros j i Hj Hi Hsp. destruct (P j i) as [Pin _].
    destruct (Pin Hj Hi Hsp) as (sig & Hsig & Hent).
    now rewrite (pes_signal_above M empty_truth encoders self x j e sig He Habs Hsig) in Hent.
  - apply simmpes_devices in Hs as (alpha & le & Ea & Hn & Ele & Hle & Hd).
    exists alpha, le. split; [rewrite Ea; now apply make_step_alpha_ok|].
    split; [exact Ea|]. split; [exact Ele|]. split; [|exact Hd].
    intros j Hj. rewrite (Hle j Hj), Ea. reflexivity.
Qed.

Lemma local_error_scale_witness :
  exists self' s',
    mPES_update Z stepper (Ok false) (of_rows 0%Q [[1%Q]]) (fresh_rule 2 1) [1; 0; 1]%Q
      = Ok self' /\
    Nengo.simmpes 1 1 (of_rows 0%R [[1%R]]) [1%R] [1%R] single_synapse = Ok s' /\
    entry Z self' 0 0 =
      stepper 0 (SNum (1 * 1 / inject_Z 2 * dot_row (of_rows 0%Q [[1%Q]]) [1%Q] 0)%Q) Inverse /\
    Nengo.make_step_alpha 1 1 [1%R] = Ok (- 1 * 1 / INR 1)%R /\
    get (Nengo.neg_memristors s') 0 0
      = Nengo.powerlaw_pulse (get (Nengo.neg_memristors single_synapse) 0 0).
Proof.
  destruct (mPES_update Z stepper (Ok false) (of_rows 0%Q [[1%Q]]) (fresh_rule 2 1) [1; 0; 1]%Q)
    as [self'|] eqn:E; [|vm_compute in E; discriminate].
  destruct (simmpes_single_synapse 1 1) as (s' & Hs & _).
  assert (Hx : input_size Z (fresh_rule 2 1) <= length [1; 0; 1]%Q) by (cbn; lia).
  assert (He : skipn (input_size Z (fresh_rule 2 1)) [1; 0; 1]%Q = [1%Q]) by reflexivity.
  assert (Ha : (1 # 100000 < Qabs 1)%Q) by reflexivity.
  exists self', s'. split; [reflexivity|]. split; [exact Hs|].
  destruct (local_error_scale Z stepper (Ok false) _ _ self' _ _ _ _ _ _ _ _ s' E Hx He Ha Hs)
    as (P & alpha & le & Ea & Eq & _ & Hle & Hd).
  split; [apply (P 0 0); [cbn; lia | cbn; lia | reflexivity]|].
  split; [rewrite Ea, Eq; reflexivity|].
  destruct (Hd 0 0) as [_ Hn]. rewrite Hn, (Hle 0) by (cbn; lia).
  unfold Nengo.lt0. destruct (Rlt_dec _ 0) as [_|Nn]; [reflexivity|].
  exfalso. apply Nn. unfold Nengo.dot_row. cbn. lra.
Defined.

(** C6 fails as stated on [SimmPES]: with unit learning rate, time step,
    encoder and error and one pre-synaptic neuron, the local error is [-1],
    where the formula of the claim gives [1]. *)
Lemma simmpes_scale_is_negative :
  exists alpha le,
    Nengo.make_step_alpha 1 1 [1%R] = Ok alpha /\
    Nengo.local_error alpha (of_rows 0%R [[1%R]]) [1%R] = Ok [le] /\
    le <> (1 * 1 / INR 1 * Nengo.dot_row (of_rows 0%R [[1%R]]) [1%R] 0)%R.
Proof.
  exists (- 1 * 1 / INR 1)%R. eexists. split; [|split].
  - unfold Nengo.make_step_alpha, Nengo.pydiv. cbn [length].
    destruct (Req_dec_T (INR 1) 0) as [E|_]; [cbn in E; lra | reflexivity].
  - reflexivity.
  - cbn. lra.
Qed.
End ScaleClaims.

(** ** The claims on the unsupervised rules and on the output *)

Section OutputClaims.
Import Rules.

(** C8.  For each of the four rules, the vector a step returns is the
    product of the weight matrix as the step leaves it, after its pulses
    and weight writes, with the pre-synaptic activities. *)
Theorem output_after_update
      (M : Type) (pulse : M -> signal -> method -> M * Q) (empty_truth : res bool)
      (r : rule) (self self' : MemristorLearningRule M) (x out : list Q) :
  call M pulse empty_truth r self x = Ok (out, self') ->
  match r with
  | mHopfieldHebbian => mHopfieldHebbian_update M pulse self x
  | mOja beta => mOja_update M pulse beta self x
  | mBCM => mBCM_update M pulse self x
  | mPES encoders => mPES_update M pulse empty_truth encoders self x
  end = Ok self' /\
  dot (weights M self') (input_activities M r self x) = Ok out.
Proof.
  intros H. destruct r as [|beta| |encoders]; cbn [call input_activities] in *;
    unfold mHopfieldHebbian_call, mOja_call, mBCM_call, mPES_call in H;
    apply bind_ok in H as (s1 & E1 & H); apply bind_ok in H as (o & Eo & H);
    injection H as -> ->; auto.
Qed.

Lemma output_after_update_witness :
  exists out self',
    call Z stepper (Ok false) (mOja 1) (fresh_rule 3 2) [1; 1; 1; 1; 1]%Q = Ok (out, self') /\
    dot (weights Z self') [1; 1; 1]%Q = Ok out /\
    map Qred out = [3; 3]%Q /\
    dot (weights Z (fresh_rule 3 2)) [1; 1; 1]%Q <> Ok out.
Proof.
  destruct (call Z stepper (Ok false) (mOja 1) (fresh_rule 3 2) [1; 1; 1; 1; 1]%Q)
    as [[out self']|] eqn:E.
  - exists out, self'. split; [reflexivity|].
    destruct (output_after_update Z stepper (Ok false) _ _ _ _ _ E) as [_ Hd].
    split; [exact Hd|].
    assert (Ho : map Qred out = [3; 3]%Q).
    { vm_compute in E. injection E as Eo _. rewrite <- Eo. reflexivity. }
    split; [exact Ho|].
    intros Hb. clear E Hd. vm_compute in Hb. injection Hb as Hb.
    rewrite <- Hb in Ho. vm_compute in Ho. discriminate.
  - vm_compute in E. discriminate.
Defined.
End OutputClaims.

Section OjaClaims.
Import Rules.
Local Open Scope Q_scope.

Lemma nth_map_in {A : Type} (f : A -> Q) (l : list A) (d : A) (k : nat) :
  (k < length l)%nat -> nth k (map f l) 0 = f (nth k l d).
Proof.
  intros H. rewrite (nth_indep _ 0 (f d)) by now rewrite length_map.
  apply map_nth.
Qed.

(** The entries of [update_direction], as [mOja.__call__] computes them. *)
Lemma oja_direction_entry (M : Type) (beta : Q) (self : MemristorLearningRule M)
      (input output : list Q) (ud : mat Q) :
  mOja_update_direction M beta self input output = Ok ud ->
  nrows (weights M self) = length output ->
  ncols (weights M self) = length input ->
  forall j i, (j < length output)%nat -> (i < length input)%nat ->
    get ud j i =
      alpha M self * nth j output 0 * nth i input 0
      - - beta * get (weights M self) j i * (alpha M self * nth j output 0 * nth j output 0).
Proof.
  intros H Hr Hc j i Hj Hi. unfold mOja_update_direction, broadcast2 in H.
  cbn [mat_map column outer nrows ncols get] in H.
  rewrite !length_map, Hr, Hc, !bdim_same, bdim_one_r in H.
  cbn [bind nrows ncols get] in H. rewrite !bdim_same in H. cbn [bind] in H.
  injection H as <-. cbn [get].
  rewrite !(bidx_lt _ _ Hj), !(bidx_lt _ _ Hi).
  rewrite (nth_map_in (fun o => alpha M self * o) output 0 j Hj).
  rewrite (nth_map_in (fun o => alpha M self * o * o) output 0 j Hj).
  reflexivity.
Qed.

(** The mask of [find_spikes] when both activities are given: the input
    and the output neuron spiked. *)
Lemma find_spikes_post (M : Type) (self : MemristorLearningRule M)
      (input output : list Q) mask :
  length input = input_size M self ->
  length output = output_size M self ->
  find_spikes M self input (Some output) = Ok mask ->
  nrows mask = output_size M self /\ ncols mask = input_size M self /\
  forall j i, (j < output_size M self)%nat -> (i < input_size M self)%nat ->
    get mask j i = spiked (nth i input 0) && spiked (nth j output 0).
Proof.
  intros Hi Ho H. unfold find_spikes, broadcast2 in H.
  cbn [tile_rows tile_cols nrows ncols] in H.
  rewrite !length_map, Hi, Ho, !bdim_same in H. cbn [bind] in H.
  injection H as <-. cbn [nrows ncols get]. repeat split.
  intros j i Hj Hi'.
  rewrite !(bidx_lt _ _ Hj), !(bidx_lt _ _ Hi'), !nth_spiked.
  reflexivity.
Qed.

(** [mOja.__call__]: an entry whose input and output neurons both spiked
    receives one pulse, whose signal is its entry of [update_direction]. *)
Lemma mOja_update_entries (M : Type) (pulse : M -> signal -> method -> M * Q)
      (beta : Q) (self self' : MemristorLearningRule M) (x : list Q) :
  mOja_update M pulse beta self x = Ok self' ->
  (input_size M self + output_size M self <= length x)%nat ->
  exists ud,
    mOja_update_direction M beta self (firstn (input_size M self) x)
      (firstn (output_size M self) (skipn (input_size M self) x)) = Ok ud /\
    forall j i, (j < output_size M self)%nat -> (i < input_size M self)%nat ->
      spiked (nth i x 0) = true ->
      spiked (nth j (skipn (input_size M self) x) 0) = true ->
      entry M self' j i = pulse (get (memristors M self) j i) (SNum (get ud j i)) Same.
Proof.
  intros H Hx. unfold mOja_update in H.
  apply bind_ok in H as (ud & Eud & H). apply bind_ok in H as (mask & Em & H).
  rewrite guarded_loop in H.
  rewrite (for_each_ext _
             (fun self '(j, i) =>
                e <- (d <- getitem ud j i ;; Ok (SNum d)) ;;
                pulse_at M pulse self j i e Same)) in H
    by (intros s0 [j0 i0]; now destruct (getitem ud j0 i0)).
  apply simple_loop_entries in H as (_ & _ & P); [|apply where_NoDup].
  apply find_spikes_post in Em as (Hr & Hc & Hg);
    [|apply firstn_length_le; lia | apply firstn_length_le; rewrite length_skipn; lia].
  exists ud. split; [exact Eud|].
  intros j i Hj Hi Hsi Hsj. destruct (P j i) as [Pin _].
  destruct Pin as (e & He & Hp).
  - apply where_In. rewrite Hr, Hc, Hg by assumption.
    rewrite !nth_firstn by assumption. now rewrite Hsi, Hsj.
  - apply bind_ok in He as (d & Ed & He). apply getitem_ok in Ed as (_ & _ & ->).
    injection He as <-. exact Hp.
Qed.

(** C1, as the code has it by design.  The update direction handed to the
    device of a spiking entry [(j, i)] is the Hebbian term
    [alpha * post[j] * pre[i]], the outer product of [alpha * post] and [pre]
    with [alpha = learning_rate * dt], changed by a decay term of magnitude
    [alpha * beta * |weight[j, i]| * post[j]^2]; where the weight is zero the
    direction is the Hebbian term. *)
Theorem oja_direction (M : Type) (pulse : M -> signal -> method -> M * Q)
      (beta : Q) (self self' : MemristorLearningRule M) (x : list Q) (j i : nat) :
  mOja_update M pulse beta self x = Ok self' ->
  nrows (weights M self) = output_size M self ->
  ncols (weights M self) = input_size M self ->
  (input_size M self + output_size M self <= length x)%nat ->
  (j < output_size M self)%nat ->
  (i < input_size M self)%nat ->
  let pre := firstn (input_size M self) x in
  let post := firstn (output_size M self) (skipn (input_size M self) x) in
  exists d,
    (spiked (nth i pre 0) = true -> spiked (nth j post 0) = true ->
     entry M self' j i = pulse (get (memristors M self) j i) (SNum d) Same) /\
    alpha M self == learning_rate M self * dt M self /\
    Qabs (d - alpha M self * nth j post 0 * nth i pre 0)
      == Qabs (alpha M self * beta * get (weights M self) j i * nth j post 0 * nth j post 0) /\
    (get (weights M self) j i == 0 -> d == alpha M self * nth j post 0 * nth i pre 0).
Proof.
  intros H Hr Hc Hx Hj Hi pre post.
  assert (Hpre : length pre = input_size M self) by (apply firstn_length_le; lia).
  assert (Hpost : length post = output_size M self)
    by (apply firstn_length_le; rewrite length_skipn; lia).
  destruct (mOja_update_entries M pulse beta self self' x H Hx) as (ud & Eud & P).
  fold pre post in Eud.
  assert (Hd : get ud j i =
    alpha M self * nth j post 0 * nth i pre 0
    - - beta * get (weights M self) j i * (alpha M self * nth j post 0 * nth j post 0)).
  { apply (oja_direction_entry M beta self pre post ud Eud); congruence. }
  exists (get ud j i). split; [|split; [reflexivity|split]].
  - intros Hsi Hsj. apply P; try assumption.
    + unfold pre in Hsi. now rewrite nth_firstn in Hsi.
    + unfold post in Hsj. now rewrite nth_firstn in Hsj.
  - rewrite Hd. apply Qabs_wd. ring.
  - intros Hw. rewrite Hd, Hw. ring.
Qed.

Lemma oja_direction_witness :
  exists self' d,
    mOja_update Z stepper 1 oja_example [1; 1; 2] = Ok self' /\
    entry Z self' 0 1 = stepper 0 (SNum d) Same /\
    Qabs (d - alpha Z oja_example * 2 * 1) == Qabs (alpha Z oja_example * 1 * 1 * 2 * 2).
Proof.
  destruct (mOja_update Z stepper 1 oja_example [1; 1; 2]) as [self'|] eqn:E.
  - assert (Hr : nrows (weights Z oja_example) = output_size Z oja_example) by reflexivity.
    assert (Hc : ncols (weights Z oja_example) = input_size Z oja_example) by reflexivity.
    assert (Hx : (input_size Z oja_example + output_size Z oja_example
                  <= length [1; 1; 2])%nat) by (cbn; lia).
    assert (H0 : (0 < output_size Z oja_example)%nat) by (cbn; lia).
    assert (H1 : (1 < input_size Z oja_example)%nat) by (cbn; lia).
    destruct (oja_direction Z stepper 1 oja_example self' _ 0 1 E Hr Hc Hx H0 H1)
      as (d & Hp & _ & Ha & _).
    exists self', d. split; [reflexivity|]. split; [|exact Ha].
    apply Hp; reflexivity.
  - vm_compute in E. discriminate.
Defined.

(** C1 fails as stated: with [alpha = 1/2], [beta = 1], [post = [2]],
    [pre = [1, 1]] and weights [[0, 1]], the code computes the directions
    [1] and [3], where the formula of the claim gives [4] and [0]. *)
Lemma oja_direction_differs :
  exists ud,
    mOja_update_direction Z 1 oja_example [1; 1] [2] = Ok ud /\
    get ud 0 0 == 1 /\ specified_direction (alpha Z oja_example) 1 0 2 1 == 4 /\
    get ud 0 1 == 3 /\ specified_direction (alpha Z oja_example) 1 1 2 1 == 0 /\
    ~ get ud 0 0 == specified_direction (alpha Z oja_example) 1 0 2 1 /\
    ~ get ud 0 1 == specified_direction (alpha Z oja_example) 1 1 2 1.
Proof.
  eexists. split; [reflexivity|]. cbn [get].
  repeat split; try reflexivity; intros H; vm_compute in H; discriminate.
Qed.
End OjaClaims.

Section HebbianFacts.
Import Rules.
Variable M : Type.
Variable pulse : M -> signal -> method -> M * Q.

Local Abbreviation Rule := (MemristorLearningRule M).

(** The mask of [find_spikes] on a recurrent layer: both neurons spiked. *)
Lemma find_spikes_both (self : Rule) (x : list Q) mask :
  input_size M self = length x ->
  output_size M self = length x ->
  find_spikes M self x (Some x) = Ok mask ->
  nrows mask = length x /\ ncols mask = length x /\
  forall j i, j < length x -> i < length x ->
    get mask j i = spiked (nth i x 0%Q) && spiked (nth j x 0%Q).
Proof.
  intros Hi Ho H. unfold find_spikes, broadcast2 in H.
  cbn [tile_rows tile_cols nrows ncols] in H.
  rewrite length_map, Hi, Ho, !bdim_same in H. cbn [bind] in H.
  injection H as <-. cbn [nrows ncols get]. repeat split.
  intros j i Hj Hi'. rewrite !(bidx_lt _ _ Hj), !(bidx_lt _ _ Hi'), !nth_spiked.
  reflexivity.
Qed.

Lemma hebbian_loop (mask : mat bool) l : forall self self',
  (forall j i, In (j, i) l -> get mask j i = true /\ get mask i j = true) ->
  for_each (fun self '(j, i) =>
      if negb (i =? j) then
        s_ji <- getitem mask j i ;;
        self <- pulse_at M pulse self j i (SBool s_ji) Same ;;
        s_ij <- getitem mask i j ;;
        pulse_at M pulse self i j (SBool s_ij) Same
      else Ok self) l self = Ok self' ->
  pulse_list M pulse Same (hebbian_pulses l) self = Ok self'.
Proof.
  induction l as [|[j i] l IH]; intros self self' Hm H; [exact H|].
  cbn [for_each] in H. apply bind_ok in H as (self1 & E1 & H).
  assert (Hm' : forall j i, In (j, i) l -> get mask j i = true /\ get mask i j = true)
    by (intros; apply Hm; now right).
  specialize (IH self1 self' Hm' H).
  destruct (Hm j i (or_introl eq_refl)) as [Hji Hij].
  unfold hebbian_pulses. cbn [flat_map fst snd]. fold (hebbian_pulses l).
  destruct (i =? j); cbn [negb] in E1.
  - injection E1 as <-. exact IH.
  - apply bind_ok in E1 as (s_ji & Eji & E1). apply getitem_ok in Eji as (_ & _ & ->).
    apply bind_ok in E1 as (self2 & E2 & E1).
    apply bind_ok in E1 as (s_ij & Eij & E1). apply getitem_ok in Eij as (_ & _ & ->).
    rewrite Hji in E2. rewrite Hij in E1.
    unfold pulse_list. cbn [app for_each fst snd]. rewrite E2. cbn [bind].
    rewrite E1. cbn [bind]. exact IH.
Qed.

Lemma signals_at_app j i (l1 l2 : list (nat * nat * signal)) :
  signals_at j i (l1 ++ l2) = signals_at j i l1 ++ signals_at j i l2.
Proof. unfold signals_at. now rewrite filter_app, map_app. Qed.

Lemma signals_at_pair j i j0 i0 :
  signals_at j i [(j0, i0, SBool true); (i0, j0, SBool true)] =
    (if (j0 =? j) && (i0 =? i) then [SBool true] else [])
    ++ (if (i0 =? j) && (j0 =? i) then [SBool true] else []).
Proof.
  unfold signals_at. cbn [filter]. unfold addressed. cbn [fst snd].
  destruct ((j0 =? j) && (i0 =? i)), ((i0 =? j) && (j0 =? i)); reflexivity.
Qed.

Lemma hebbian_signals j i (l : list (nat * nat)) :
  i <> j ->
  signals_at j i (hebbian_pulses l) =
    repeat (SBool true) (count_occ addr_eq_dec l (j, i) + count_occ addr_eq_dec l (i, j)).
Proof.
  intros Hne. induction l as [|[j0 i0] l IH]; [reflexivity|].
  change (hebbian_pulses ((j0, i0) :: l))
    with ((if i0 =? j0 then []
           else [(j0, i0, SBool true); (i0, j0, SBool true)]) ++ hebbian_pulses l).
  rewrite signals_at_app, IH. cbn [count_occ].
  assert (Hij : (i =? j) = false) by now apply Nat.eqb_neq.
  assert (Hji : (j =? i) = false) by (apply Nat.eqb_neq; congruence).
  destruct (addr_eq_dec (j0, i0) (j, i)) as [E|N1].
  - injection E as -> ->.
    destruct (addr_eq_dec (j, i) (i, j)) as [E|_]; [injection E as E _; congruence|].
    rewrite Hij, signals_at_pair, !Nat.eqb_refl, Hij. reflexivity.
  - destruct (addr_eq_dec (j0, i0) (i, j)) as [E|N2].
    + injection E as -> ->.
      rewrite Hji, signals_at_pair, !Nat.eqb_refl, Hij, Nat.add_succ_r. reflexivity.
    + destruct (i0 =? j0) eqn:Ed; [reflexivity|].
      rewrite signals_at_pair.
      assert (H1 : (j0 =? j) && (i0 =? i) = false).
      { apply andb_false_iff. destruct (Nat.eq_dec j0 j) as [->|Hn];
          [right | left; now apply Nat.eqb_neq].
        apply Nat.eqb_neq. intros ->. now apply N1. }
      assert (H2 : (i0 =? j) && (j0 =? i) = false).
      { apply andb_false_iff. destruct (Nat.eq_dec i0 j) as [->|Hn];
          [right | left; now apply Nat.eqb_neq].
        apply Nat.eqb_neq. intros ->. now apply N2. }
      rewrite H1, H2. reflexivity.
Qed.

(** [mHopfieldHebbian.__call__] on a recurrent layer, as a sequence of
    pulses: two distinct neurons that both spiked have each of their two
    mirrored entries addressed twice. *)
Lemma hebbian_update_pulses (self self' : Rule) (x : list Q) :
  mHopfieldHebbian_update M pulse self x = Ok self' ->
  input_size M self = length x ->
  output_size M self = length x ->
  exists pl,
    pulse_list M pulse Same pl self = Ok self' /\
    forall j i, j < length x -> i < length x -> i <> j ->
      spiked (nth i x 0%Q) = true -> spiked (nth j x 0%Q) = true ->
      signals_at j i pl = [SBool true; SBool true].
Proof.
  intros H Hi Ho. unfold mHopfieldHebbian_update in H.
  apply bind_ok in H as (mask & Em & H). rewrite guarded_loop in H.
  apply find_spikes_both in Em as (Hr & Hc & Hg); [|exact Hi|exact Ho].
  assert (Hsym : forall j i, In (j, i) (where_ mask) ->
                   get mask j i = true /\ get mask i j = true).
  { intros j i Hin. apply where_In in Hin as (Hj & Hi' & Ht). rewrite Hr in Hj.
    rewrite Hc in Hi'. split; [exact Ht|].
    rewrite Hg in Ht by assumption. rewrite Hg by assumption. now rewrite andb_comm. }
  apply hebbian_loop in H; [|exact Hsym].
  exists (hebbian_pulses (where_ mask)). split; [exact H|].
  intros j i Hj Hi' Hne Hsi Hsj.
  assert (Hin : In (j, i) (where_ mask)).
  { apply where_In. rewrite Hr, Hc, Hg by assumption. now rewrite Hsi, Hsj. }
  assert (Hin' : In (i, j) (where_ mask)).
  { apply where_In. rewrite Hr, Hc, Hg by assumption. now rewrite Hsi, Hsj. }
  rewrite hebbian_signals by exact Hne.
  pose proof (where_NoDup mask) as Hnd.
  rewrite (proj1 (NoDup_count_occ' addr_eq_dec _) Hnd _ Hin).
  rewrite (proj1 (NoDup_count_occ' addr_eq_dec _) Hnd _ Hin').
  reflexivity.
Qed.
End HebbianFacts.

Section HebbianClaims.
Import Rules.

(** C10.  In a step of the Hebbian-symmetric rule on a recurrent layer in
    which two distinct neurons [i] and [j] both spike, the device of entry
    [(j, i)] and the device of entry [(i, j)] each receive exactly two
    pulses, so that each of them ends in the state two pulses lead to. *)
Theorem hebbian_double_pulse
      (M : Type) (pulse : M -> signal -> method -> M * Q)
      (self self' : MemristorLearningRule M) (x out : list Q) (j i : nat) :
  mHopfieldHebbian_call M pulse self x = Ok (out, self') ->
  input_size M self = length x ->
  output_size M self = length x ->
  j < length x -> i < length x -> i <> j ->
  spiked (nth i x 0%Q) = true ->
  spiked (nth j x 0%Q) = true ->
  exists pl,
    pulse_list M pulse Same pl self = Ok self' /\
    signals_at j i pl = [SBool true; SBool true] /\
    signals_at i j pl = [SBool true; SBool true] /\
    entry M self' j i =
      pulse (fst (pulse (get (memristors M self) j i) (SBool true) Same)) (SBool true) Same /\
    entry M self' i j =
      pulse (fst (pulse (get (memristors M self) i j) (SBool true) Same)) (SBool true) Same.
Proof.
  intros H Hi Ho Hj Hi' Hne Hsi Hsj. unfold mHopfieldHebbian_call in H.
  apply bind_ok in H as (s1 & E1 & H). apply bind_ok in H as (o & _ & H).
  injection H as _ ->.
  apply hebbian_update_pulses in E1 as (pl & Hpl & Hs); [|exact Hi|exact Ho].
  exists pl. split; [exact Hpl|].
  assert (S1 : signals_at j i pl = [SBool true; SBool true]) by now apply Hs.
  assert (S2 : signals_at i j pl = [SBool true; SBool true])
    by (apply Hs; auto; congruence).
  split; [exact S1|]. split; [exact S2|].
  apply pulse_list_ok in Hpl as (_ & _ & P).
  split; rewrite P; [rewrite S1 | rewrite S2]; reflexivity.
Qed.

Lemma hebbian_double_pulse_witness :
  exists out self',
    mHopfieldHebbian_call Z stepper (fresh_rule 3 3) [1; 1; 0]%Q = Ok (out, self') /\
    entry Z self' 0 1 = stepper (fst (stepper 0 (SBool true) Same)) (SBool true) Same /\
    get (memristors Z self') 0 1 = 2%Z /\
    get (memristors Z self') 1 0 = 2%Z.
Proof.
  destruct (mHopfieldHebbian_call Z stepper (fresh_rule 3 3) [1; 1; 0]%Q) as [[out self']|] eqn:E.
  - exists out, self'. split; [reflexivity|].
    assert (Hi : input_size Z (fresh_rule 3 3) = length [1; 1; 0]%Q) by reflexivity.
    assert (Ho : output_size Z (fresh_rule 3 3) = length [1; 1; 0]%Q) by reflexivity.
    assert (H0 : 0 < length [1; 1; 0]%Q) by (cbn; lia).
    assert (H1 : 1 < length [1; 1; 0]%Q) by (cbn; lia).
    assert (Hne : 1 <> 0) by discriminate.
    destruct (hebbian_double_pulse Z stepper _ self' _ out 0 1 E Hi Ho H0 H1 Hne
                eq_refl eq_refl) as (pl & _ & _ & _ & P1 & P2).
    split; [exact P1|].
    apply (f_equal fst) in P1, P2. split; [exact P1 | exact P2].
  - vm_compute in E. discriminate.
Defined.
End HebbianClaims.

(** * Further properties of the code *)

(** ** The conversions *)

Section ConversionsMore.
Import Nengo.
Local Open Scope R_scope.

Lemma unit_fraction (x D : R) : 0 < D -> 0 <= x <= D -> 0 <= x / D <= 1.
Proof.
  intros HD [H0 H1]. split.
  - apply Rmult_le_pos; [exact H0 | left; now apply Rinv_0_lt_compat].
  - apply (Rmult_le_reg_r D); [exact HD|]. unfold Rdiv.
    rewrite Rmult_assoc, Rinv_l by lra. lra.
Qed.

Lemma inverse_between (lo hi x : R) :
  0 < lo -> lo <= x <= hi -> / hi <= / x <= / lo.
Proof.
  intros Hlo [H1 H2]. split; apply Rinv_le_contravar; lra.
Qed.

(** [resistance2conductance] maps the resistances of the device law onto
    the conductances from [0] to [gain]: [r_max] is sent to [0] and [r_min]
    to [gain]. *)
Theorem resistance2conductance_range (R0 : R) :
  r_min <= R0 <= r_max ->
  exists g,
    resistance2conductance (Fin R0) = Fin g /\
    0 <= g <= gain /\
    (R0 = r_max -> g = 0) /\
    (R0 = r_min -> g = gain).
Proof.
  intros H. pose proof r_min_pos as Hm. pose proof g_range_pos as Hg.
  exists (conductance_value R0). split; [apply resistance2conductance_fin; lra|].
  unfold conductance_value.
  assert (Hgain : 0 < gain) by (unfold gain; lra).
  pose proof (inverse_between r_min r_max R0 Hm H) as Hi.
  assert (Hn : 0 <= 1 / R0 - g_min <= g_max - g_min) by (unfold g_min, g_max; lra).
  pose proof (unit_fraction _ _ Hg Hn) as Hq.
  split; [nra|]. split; intros ->.
  - unfold g_min. replace (1 / r_max - 1 / r_max) with 0 by lra.
    unfold Rdiv. now rewrite !Rmult_0_l.
  - fold g_max. unfold Rdiv. rewrite Rinv_r by lra. lra.
Qed.

Lemma resistance2conductance_range_witness :
  r_min <= 1e8 <= r_max /\
  exists g,
    resistance2conductance (Fin 1e8) = Fin g /\
    0 <= g <= gain /\
    (1e8 = r_max -> g = 0) /\
    (1e8 = r_min -> g = gain).
Proof.
  assert (H : r_min <= 1e8 <= r_max) by (unfold r_min, r_max; lra).
  split; [exact H | exact (resistance2conductance_range 1e8 H)].
Defined.

(** On a positive base, [monom_deriv( base, exp )] is the derivative of
    [x ** exp] at [base]. *)
Theorem monom_deriv_is_derivative (base e : R) :
  0 < base ->
  exists d,
    monom_deriv (Fin base) e = Fin d /\
    derivable_pt_lim (fun x => Rpower x e) base d.
Proof.
  intros H. exists (e * Rpower base (e - 1)). split.
  - unfold monom_deriv. cbn [fpow].
    destruct (Rlt_dec 0 base) as [_|N]; [reflexivity | contradiction].
  - now apply derivable_pt_lim_power.
Qed.

Lemma monom_deriv_is_derivative_witness :
  0 < 2 /\
  exists d,
    monom_deriv (Fin 2) a = Fin d /\
    derivable_pt_lim (fun x => Rpower x a) 2 d.
Proof.
  assert (H : 0 < 2) by lra.
  split; [exact H | exact (monom_deriv_is_derivative 2 a H)].
Defined.

(** With the bounds of its signature, [r_max = 2.5e8] and [r_min = 1e2],
    and a sampling range inside them, [initial_normalized_conductances]
    returns an array of the requested shape whose entries all lie between
    [0] and [1]. *)
Theorem initial_normalized_conductances_unit
    (u : nat -> nat -> R) (low high : R) (shape : nat * nat) :
  1e2 <= low -> low <= high -> high <= 2.5e8 ->
  (forall j i, 0 <= u j i < 1) ->
  exists m,
    initial_normalized_conductances u low high shape 2.5e8 1e2 = Ok m /\
    nrows m = fst shape /\ ncols m = snd shape /\
    forall j i, exists g, get m j i = Fin g /\ 0 <= g <= 1.
Proof.
  intros Hlo Hlh Hhi Hu.
  unfold initial_normalized_conductances, pydiv.
  destruct (Req_dec_T 2.5e8 0) as [E|_]; [lra|].
  destruct (Req_dec_T 1e2 0) as [E|_]; [lra|].
  cbn [bind]. eexists. split; [reflexivity|]. cbn [mat_map initial_resistances nrows ncols get].
  split; [reflexivity|]. split; [reflexivity|]. intros j i.
  set (R0 := low + (high - low) * u j i).
  assert (HR : 1e2 <= R0 <= 2.5e8).
  { specialize (Hu j i). unfold R0. split; nra. }
  assert (Hmin : 0 < 1e2) by lra.
  pose proof (inverse_between 1e2 2.5e8 R0 Hmin HR) as Hi.
  cbn [fdiv]. destruct (Req_dec_T R0 0) as [E|_]; [lra|].
  cbn [fsub fneg fadd fdiv].
  destruct (Req_dec_T (1 / 1e2 - 1 / 2.5e8) 0) as [E|_]; [lra|].
  eexists. split; [reflexivity|].
  apply unit_fraction; lra.
Qed.

Lemma initial_normalized_conductances_unit_witness :
  exists m,
    initial_normalized_conductances (fun _ _ => 0) 1e8 1.1e8 (2, 3)%nat 2.5e8 1e2 = Ok m /\
    nrows m = 2%nat /\ ncols m = 3%nat /\
    forall j i, exists g, get m j i = Fin g /\ 0 <= g <= 1.
Proof.
  apply (initial_normalized_conductances_unit (fun _ _ => 0) 1e8 1.1e8 (2, 3)%nat);
    try lra.
  intros; lra.
Defined.
End ConversionsMore.

(** ** The operator [SimmPES]: steps and runs *)

Section OperatorMore.
Import Nengo.
Local Open Scope R_scope.

Lemma simmpes_outcome_spec learning_rate dt encoders error pre_filtered s :
  match simmpes learning_rate dt encoders error pre_filtered s with
  | Ok s' =>
      simmpes_outcome encoders error pre_filtered s = None /\
      nrows (pos_memristors s) = nrows encoders /\
      ncols (pos_memristors s) = length pre_filtered /\
      nrows (neg_memristors s) = nrows encoders /\
      ncols (neg_memristors s) = length pre_filtered /\
      nrows (delta s') = nrows (delta s) /\ ncols (delta s') = ncols (delta s) /\
      forall j i,
        get (delta s') j i =
          fsub (resistance2conductance
                  (get (pos_memristors s') (bidx (nrows encoders) (bidx (nrows encoders) j))
                     (bidx (length pre_filtered) (bidx (length pre_filtered) i))))
               (resistance2conductance
                  (get (neg_memristors s') (bidx (nrows encoders) (bidx (nrows encoders) j))
                     (bidx (length pre_filtered) (bidx (length pre_filtered) i))))
  | Raise e => simmpes_outcome encoders error pre_filtered s = Some e
  end.
Proof.
  unfold simmpes, make_step_alpha, pydiv, simmpes_outcome.
  destruct (length pre_filtered =? 0)%nat eqn:E0.
  - apply Nat.eqb_eq in E0. rewrite E0.
    destruct (Req_dec_T (INR 0) 0) as [_|N]; [reflexivity|].
    exfalso. apply N. reflexivity.
  - apply Nat.eqb_neq in E0.
    destruct (Req_dec_T (INR (length pre_filtered)) 0) as [E|_].
    { exfalso. exact (not_0_INR _ E0 E). }
    cbn [bind]. unfold step_simmpes, voltage, local_error, dot.
    destruct (ncols encoders =? length error)%nat; cbn [negb bind]; [|reflexivity].
    unfold pulse_where, same_shape. cbn [mat_map outer nrows ncols].
    rewrite !length_map, length_seq.
    destruct ((nrows encoders =? nrows (pos_memristors s))%nat
              && (length pre_filtered =? ncols (pos_memristors s))%nat) eqn:Ep;
      cbn [negb bind]; [|reflexivity].
    destruct ((nrows encoders =? nrows (neg_memristors s))%nat
              && (length pre_filtered =? ncols (neg_memristors s))%nat) eqn:En;
      cbn [negb bind]; [|reflexivity].
    apply andb_true_iff in Ep as [Ep1 Ep2]. apply andb_true_iff in En as [En1 En2].
    apply Nat.eqb_eq in Ep1, Ep2, En1, En2.
    unfold broadcast2. cbn [mat_map nrows ncols get].
    rewrite <- Ep1, <- Ep2, <- En1, <- En2, !bdim_same. cbn [bind].
    unfold assign_all. cbn [nrows ncols get].
    destruct (((nrows encoders =? nrows (delta s))%nat || (nrows encoders =? 1)%nat)
              && ((length pre_filtered =? ncols (delta s))%nat
                  || (length pre_filtered =? 1)%nat));
      cbn [negb]; [|reflexivity].
    cbn [delta pos_memristors neg_memristors nrows ncols get]. repeat split.
Qed.

Lemma simmpes_shapes learning_rate dt encoders error pre_filtered s s' :
  simmpes learning_rate dt encoders error pre_filtered s = Ok s' ->
  nrows (pos_memristors s') = nrows (pos_memristors s) /\
  ncols (pos_memristors s') = ncols (pos_memristors s) /\
  nrows (neg_memristors s') = nrows (neg_memristors s) /\
  ncols (neg_memristors s') = ncols (neg_memristors s).
Proof.
  intros H. unfold simmpes in H. apply bind_ok in H as (alpha & _ & H).
  apply step_simmpes_devices in H as (le & _ & H1 & H2 & H3 & H4 & _). auto.
Qed.

(** The outcome of building and stepping the operator is decided by the
    shapes alone, checked in this order: without any pre-synaptic neuron
    the scale factor divides by zero; encoders whose number of columns is
    not the length of the error raise [ValueError]; a device array, the
    positive one first, whose shape is not (rows of the encoders, number of
    activities) raises [IndexError]; a [delta] to which that shape does not
    broadcast raises [ValueError]; otherwise the step returns and keeps the
    shapes of the three signals. *)
Theorem simmpes_failure_modes learning_rate dt encoders error pre_filtered s :
  match simmpes_outcome encoders error pre_filtered s with
  | Some e => simmpes learning_rate dt encoders error pre_filtered s = Raise e
  | None =>
      exists s',
        simmpes learning_rate dt encoders error pre_filtered s = Ok s' /\
        nrows (pos_memristors s') = nrows (pos_memristors s) /\
        ncols (pos_memristors s') = ncols (pos_memristors s) /\
        nrows (neg_memristors s') = nrows (neg_memristors s) /\
        ncols (neg_memristors s') = ncols (neg_memristors s) /\
        nrows (delta s') = nrows (delta s) /\
        ncols (delta s') = ncols (delta s)
  end.
Proof.
  pose proof (simmpes_outcome_spec learning_rate dt encoders error pre_filtered s) as H.
  destruct (simmpes learning_rate dt encoders error pre_filtered s) as [s'|e] eqn:E.
  - destruct H as (-> & _ & _ & _ & _ & Hd1 & Hd2 & _).
    exists s'. split; [reflexivity|].
    destruct (simmpes_shapes _ _ _ _ _ _ _ E) as (H1 & H2 & H3 & H4). auto 10.
  - now rewrite H.
Qed.

(** A step never pulses both devices of a synapse. *)
Theorem simmpes_pulses_one_device learning_rate dt encoders error pre_filtered s s' :
  simmpes learning_rate dt encoders error pre_filtered s = Ok s' ->
  forall j i,
    get (pos_memristors s') j i = get (pos_memristors s) j i \/
    get (neg_memristors s') j i = get (neg_memristors s) j i.
Proof.
  intros H j i. apply simmpes_devices in H as (alpha & le & _ & _ & _ & _ & Hd).
  destruct (Hd j i) as [Hp Hn]. rewrite Hp, Hn. unfold gt0, lt0.
  destruct (Rlt_dec 0 (nth j le 0 * nth i pre_filtered 0)) as [Hpos|_]; [|now left].
  destruct (Rlt_dec (nth j le 0 * nth i pre_filtered 0) 0) as [Hneg|_]; [lra | now right].
Qed.

Lemma simmpes_pulses_one_device_witness :
  exists s',
    simmpes 1 1 (of_rows 0 [[1]]) [1] [1] single_synapse = Ok s' /\
    (get (pos_memristors s') 0%nat 0%nat = get (pos_memristors single_synapse) 0%nat 0%nat \/
     get (neg_memristors s') 0%nat 0%nat = get (neg_memristors single_synapse) 0%nat 0%nat).
Proof.
  destruct (simmpes_single_synapse 1 1) as (s' & Hs & _).
  exists s'. split; [exact Hs|].
  exact (simmpes_pulses_one_device 1 1 _ _ _ _ s' Hs 0%nat 0%nat).
Defined.

Lemma conductance_value_range (R0 : R) :
  r_min <= R0 <= r_max -> 0 <= conductance_value R0 <= gain.
Proof.
  intros H. pose proof r_min_pos as Hm. pose proof g_range_pos as Hg.
  unfold conductance_value.
  assert (Hgain : 0 < gain) by (unfold gain; lra).
  pose proof (inverse_between r_min r_max R0 Hm H) as Hi.
  assert (Hn : 0 <= 1 / R0 - g_min <= g_max - g_min) by (unfold g_min, g_max; lra).
  pose proof (unit_fraction _ _ Hg Hn) as Hq. nra.
Qed.

Lemma simmpes_within learning_rate dt encoders error pre_filtered s s' :
  simmpes learning_rate dt encoders error pre_filtered s = Ok s' ->
  (forall j i, within_bounds (get (pos_memristors s) j i)) ->
  (forall j i, within_bounds (get (neg_memristors s) j i)) ->
  (forall j i, within_bounds (get (pos_memristors s') j i)) /\
  (forall j i, within_bounds (get (neg_memristors s') j i)).
Proof.
  intros H Hp Hn. unfold simmpes in H. apply bind_ok in H as (alpha & _ & H).
  exact (step_simmpes_within _ _ _ _ _ _ H Hp Hn).
Qed.

Lemma simmpes_delta_bounded learning_rate dt encoders error pre_filtered s s' :
  simmpes learning_rate dt encoders error pre_filtered s = Ok s' ->
  (forall j i, within_bounds (get (pos_memristors s) j i)) ->
  (forall j i, within_bounds (get (neg_memristors s) j i)) ->
  forall j i, exists d, get (delta s') j i = Fin d /\ - gain <= d <= gain.
Proof.
  intros H Hp Hn j i.
  destruct (simmpes_within _ _ _ _ _ _ _ H Hp Hn) as [Hp' Hn'].
  pose proof (simmpes_outcome_spec learning_rate dt encoders error pre_filtered s) as S.
  rewrite H in S. destruct S as (_ & _ & _ & _ & _ & _ & _ & D). rewrite D.
  set (j' := bidx _ (bidx _ j)). set (i' := bidx _ (bidx _ i)).
  pose proof (Hp' j' i') as A. pose proof (Hn' j' i') as B.
  destruct (get (pos_memristors s') j' i') as [rp| | |]; cbn in A; try contradiction.
  destruct (get (neg_memristors s') j' i') as [rn| | |]; cbn in B; try contradiction.
  pose proof r_min_pos as Hm.
  rewrite !resistance2conductance_fin by lra.
  pose proof (conductance_value_range rp A). pose proof (conductance_value_range rn B).
  eexists. split; [reflexivity|]. lra.
Qed.

(** After every step of a run from devices within the bounds of the law,
    every entry of [delta] is a number between [- gain] and [gain]: the
    difference of two normalised conductances, never [inf] or [nan]. *)
Theorem delta_bounded_by_gain learning_rate dt encoders inputs : forall s s',
  run learning_rate dt encoders inputs s = Ok s' ->
  inputs <> [] ->
  (forall j i, within_bounds (get (pos_memristors s) j i)) ->
  (forall j i, within_bounds (get (neg_memristors s) j i)) ->
  forall j i, exists d, get (delta s') j i = Fin d /\ - gain <= d <= gain.
Proof.
  unfold run. induction inputs as [|[error pre] inputs IH]; intros s s' H Hne Hp Hn j i.
  - contradiction.
  - cbn [for_each] in H. apply bind_ok in H as (s1 & E & H).
    destruct inputs as [|x inputs].
    + cbn in H. injection H as <-.
      exact (simmpes_delta_bounded _ _ _ _ _ _ _ E Hp Hn j i).
    + destruct (simmpes_within _ _ _ _ _ _ _ E Hp Hn) as [Hp1 Hn1].
      apply (IH s1 s' H); [discriminate | exact Hp1 | exact Hn1].
Qed.

Lemma delta_bounded_by_gain_witness :
  exists s',
    run 1 1 (of_rows 0 [[1]]) [([1], [1]); ([-1], [1])] single_synapse = Ok s' /\
    [([1], [1]); ([-1], [1])] <> [] /\
    (forall j i, within_bounds (get (pos_memristors single_synapse) j i)) /\
    (forall j i, within_bounds (get (neg_memristors single_synapse) j i)) /\
    exists d, get (delta s') 0%nat 0%nat = Fin d /\ - gain <= d <= gain.
Proof.
  destruct (run_returns 1 1 (of_rows 0 [[1]]) 1 [([1], [1]); ([-1], [1])] single_synapse)
    as [s' Hs].
  - discriminate.
  - repeat constructor.
  - apply build_mpes_shaped.
  - assert (Hw : forall j i : nat,
               within_bounds (get (initial_resistances (fun _ _ => 0) 1e8 1.1e8 (1, 1)%nat) j i)).
    { apply initial_resistances_within. intros; lra. }
    assert (Hne : [([1], [1]); ([-1], [1])] <> @nil (list R * list R)) by discriminate.
    exists s'. split; [exact Hs|]. split; [exact Hne|]. split; [exact Hw|]. split; [exact Hw|].
    exact (delta_bounded_by_gain 1 1 _ _ single_synapse s' Hs Hne Hw Hw 0%nat 0%nat).
Defined.

Lemma run_returns_shaped learning_rate dt encoders in_size inputs : forall s,
  in_size <> 0%nat ->
  Forall (fun '(error, pre_filtered) =>
            ncols encoders = length error /\ length pre_filtered = in_size) inputs ->
  shaped (nrows encoders) in_size s ->
  exists s', run learning_rate dt encoders inputs s = Ok s' /\
             shaped (nrows encoders) in_size s'.
Proof.
  unfold run. induction inputs as [|[error pre] inputs IH]; intros s Hn Hin Hs.
  - cbn. eauto.
  - inversion Hin as [|? ? Hh Hin']; subst. destruct Hh as [Hc Hl]. subst in_size.
    destruct (simmpes_returns learning_rate dt encoders error pre s)
      as (s1 & E & Hs1); auto.
    cbn [for_each]. rewrite E. cbn [bind]. apply IH; auto.
Qed.

(** The operator as [build_mpes] sets it up never raises on well-formed
    signals: with at least one pre-synaptic neuron, and at every step an
    error of the length of the encoders' rows and one activity per
    pre-synaptic neuron, a run of any length, with any learning rate, time
    step and initial draws, returns, and the three signals keep the shape
    (post-synaptic neurons, pre-synaptic neurons). *)
Theorem built_operator_runs (u_pos u_neg : nat -> nat -> R) learning_rate dt encoders
    (in_size : nat) (inputs : list (list R * list R)) :
  in_size <> 0%nat ->
  Forall (fun '(error, pre_filtered) =>
            ncols encoders = length error /\ length pre_filtered = in_size) inputs ->
  exists s',
    run learning_rate dt encoders inputs (build_mpes u_pos u_neg (nrows encoders) in_size)
      = Ok s' /\
    shaped (nrows encoders) in_size s'.
Proof.
  intros Hn Hin. apply run_returns_shaped; [exact Hn | exact Hin | apply build_mpes_shaped].
Qed.

Lemma built_operator_runs_witness :
  1%nat <> 0%nat /\
  exists s',
    run 1 1 (of_rows 0 [[1]]) [([1], [1]); ([-1], [1])]
      (build_mpes (fun _ _ => 0) (fun _ _ => 0) (nrows (of_rows 0 [[1]])) 1) = Ok s' /\
    shaped (nrows (of_rows 0 [[1]])) 1 s'.
Proof.
  assert (Hn : 1%nat <> 0%nat) by discriminate.
  split; [exact Hn|].
  apply (built_operator_runs (fun _ _ => 0) (fun _ _ => 0) 1 1 (of_rows 0 [[1]]) 1
           [([1], [1]); ([-1], [1])] Hn).
  repeat constructor.
Defined.
End OperatorMore.

(** ** The learning rules of [MemristorLearningRules.py], further *)

Section SpikeMore.
Import Rules.
Local Open Scope Q_scope.

Lemma above_half (q : Q) : 1 # 2 < Qabs q <-> q < - (1 # 2) \/ 1 # 2 < q.
Proof.
  apply Qabs_case; intros H; split; intros H'.
  - now right.
  - destruct H' as [H'|H']; [Lqa.lra | exact H'].
  - left. Lqa.lra.
  - destruct H' as [H'|H']; Lqa.lra.
Qed.

Lemma floor_cases (f : Z) (F : Q) : F == inject_Z f ->
  ((f <= -2)%Z -> F <= -2) /\ ((f <= -1)%Z -> F <= -1) /\ ((1 <= f)%Z -> 1 <= F) /\
  (f = 0%Z -> F == 0) /\ (f = (-1)%Z -> F == -1).
Proof.
  intros ->. repeat split; intros H.
  - rewrite Zle_Qle in H. exact H.
  - rewrite Zle_Qle in H. exact H.
  - rewrite Zle_Qle in H. exact H.
  - now subst.
  - now subst.
Qed.

(** An activity counts as a spike exactly when its magnitude is above one
    half: [np.rint] rounds the two ties [1/2] and [-1/2] to zero, and the
    sign of the activity plays no role. *)
Theorem spiked_threshold (q : Q) : spiked q = true <-> 1 # 2 < Qabs q.
Proof.
  rewrite above_half. unfold spiked, rint.
  pose proof (Qfloor_le q) as H1. pose proof (Qlt_floor q) as H2.
  rewrite inject_Z_plus in H2.
  destruct (floor_cases (Qfloor q) (inject_Z (Qfloor q)) (Qeq_refl _))
    as (C2 & C1 & P1 & Z0 & M1).
  rewrite negb_true_iff, Z.eqb_neq.
  set (f := Qfloor q) in *. set (F := inject_Z f) in *.
  change (inject_Z 1) with 1 in H2.
  destruct (Qcompare_spec (q - F) (1 # 2)) as [E|L|G].
  - destruct (Z.even f) eqn:Ev.
    + split.
      * intros Hf. assert (Hc : (f <= -2 \/ 1 <= f)%Z).
        { apply Z.even_spec in Ev. destruct Ev as [k ->]. lia. }
        destruct Hc as [Hc|Hc]; [apply C2 in Hc; left | apply P1 in Hc; right]; Lqa.lra.
      * intros Hq ->. specialize (Z0 eq_refl). Lqa.lra.
    + split.
      * intros Hf. assert (Hc : (f <= -2 \/ 1 <= f)%Z).
        { assert (Ho : Z.odd f = true) by (rewrite <- Z.negb_even, Ev; reflexivity).
          apply Z.odd_spec in Ho. destruct Ho as [k ->]. lia. }
        destruct Hc as [Hc|Hc]; [apply C2 in Hc; left | apply P1 in Hc; right]; Lqa.lra.
      * intros Hq Hf. assert (Hm : f = (-1)%Z) by lia. specialize (M1 Hm). Lqa.lra.
  - split.
    + intros Hf. assert (Hc : (f <= -1 \/ 1 <= f)%Z) by lia.
      destruct Hc as [Hc|Hc]; [apply C1 in Hc; left | apply P1 in Hc; right]; Lqa.lra.
    + intros Hq ->. specialize (Z0 eq_refl). Lqa.lra.
  - split.
    + intros Hf. assert (Hc : (f <= -2 \/ 0 <= f)%Z) by lia.
      destruct Hc as [Hc|Hc]; [apply C2 in Hc; left | right]; [Lqa.lra|].
      assert (0 <= F) by (unfold F; rewrite Zle_Qle in Hc; exact Hc). Lqa.lra.
    + intros Hq Hf. assert (Hm : f = (-1)%Z) by lia. specialize (M1 Hm). Lqa.lra.
Qed.
End SpikeMore.

Section UnsupervisedMore.
Import Rules.

Lemma hebbian_pulses_off_diagonal (l : list (nat * nat)) (j i : nat) (s : signal) :
  In (j, i, s) (hebbian_pulses l) -> i <> j.
Proof.
  unfold hebbian_pulses. rewrite in_flat_map. intros ([j0 i0] & _ & H). cbn [fst snd] in H.
  destruct (i0 =? j0) eqn:E; [contradiction|]. apply Nat.eqb_neq in E.
  destruct H as [H|[H|[]]]; injection H as E1 E2 _; congruence.
Qed.

(** [mHopfieldHebbian.__call__] on a recurrent layer touches nothing else
    than the pairs of distinct neurons that both spiked: an entry on the
    diagonal, or one of whose two neurons did not spike, keeps its device
    and its weight. *)
Theorem hebbian_untouched_entries
      (M : Type) (pulse : M -> signal -> method -> M * Q)
      (self self' : MemristorLearningRule M) (x : list Q) (j i : nat) :
  mHopfieldHebbian_update M pulse self x = Ok self' ->
  input_size M self = length x ->
  output_size M self = length x ->
  i = j \/ spiked (nth i x 0%Q) = false \/ spiked (nth j x 0%Q) = false ->
  entry M self' j i = entry M self j i.
Proof.
  intros H Hi Ho Hc. unfold mHopfieldHebbian_update in H.
  apply bind_ok in H as (mask & Em & H). rewrite guarded_loop in H.
  apply find_spikes_both in Em as (Hr & Hcn & Hg); [|exact Hi|exact Ho].
  assert (Hsym : forall j i, In (j, i) (where_ mask) ->
                   get mask j i = true /\ get mask i j = true).
  { intros j0 i0 Hin. apply where_In in Hin as (Hj & Hi' & Ht). rewrite Hr in Hj.
    rewrite Hcn in Hi'. split; [exact Ht|].
    rewrite Hg in Ht by assumption. rewrite Hg by assumption. now rewrite andb_comm. }
  apply hebbian_loop in H; [|exact Hsym].
  apply pulse_list_ok in H as (_ & _ & P). rewrite P.
  assert (Hs : signals_at j i (hebbian_pulses (where_ mask)) = []);
    [|rewrite Hs; reflexivity].
  destruct (Nat.eq_dec i j) as [->|Hne].
  - apply signals_at_notin. intros Hin.
    apply in_map_iff in Hin as ([[j0 i0] s] & E & Hin). cbn [fst] in E.
    injection E as -> ->. apply hebbian_pulses_off_diagonal in Hin. congruence.
  - assert (Hboth : forall a b, In (a, b) (where_ mask) ->
                      spiked (nth b x 0%Q) = true /\ spiked (nth a x 0%Q) = true).
    { intros a b Hin. apply where_In in Hin as (Ha & Hb & Ht).
      rewrite Hr in Ha. rewrite Hcn in Hb. rewrite Hg in Ht by assumption.
      now apply andb_true_iff in Ht. }
    assert (N1 : ~ In (j, i) (where_ mask)).
    { intros Hin. apply Hboth in Hin as [T1 T2]. destruct Hc as [?|[?|?]]; congruence. }
    assert (N2 : ~ In (i, j) (where_ mask)).
    { intros Hin. apply Hboth in Hin as [T1 T2]. destruct Hc as [?|[?|?]]; congruence. }
    rewrite hebbian_signals by exact Hne.
    apply (count_occ_not_In addr_eq_dec) in N1, N2. rewrite N1, N2. reflexivity.
Qed.

Lemma hebbian_untouched_entries_witness :
  exists self',
    mHopfieldHebbian_update Z stepper (fresh_rule 3 3) [1; 1; 0]%Q = Ok self' /\
    entry Z self' 1 1 = entry Z (fresh_rule 3 3) 1 1 /\
    entry Z self' 2 0 = entry Z (fresh_rule 3 3) 2 0.
Proof.
  destruct (mHopfieldHebbian_update Z stepper (fresh_rule 3 3) [1; 1; 0]%Q)
    as [self'|] eqn:E.
  - exists self'. split; [reflexivity|].
    assert (Hi : input_size Z (fresh_rule 3 3) = length [1; 1; 0]%Q) by reflexivity.
    assert (Ho : output_size Z (fresh_rule 3 3) = length [1; 1; 0]%Q) by reflexivity.
    split.
    + exact (hebbian_untouched_entries Z stepper _ self' _ 1 1 E Hi Ho (or_introl eq_refl)).
    + exact (hebbian_untouched_entries Z stepper _ self' _ 2 0 E Hi Ho
               (or_intror (or_intror eq_refl))).
  - vm_compute in E. discriminate.
Defined.

(** [mOja.__call__] touches nothing else than the entries whose input and
    output neurons both spiked: every other entry keeps its device and its
    weight, whatever its update direction. *)
Theorem mOja_untouched_entries
      (M : Type) (pulse : M -> signal -> method -> M * Q) (beta : Q)
      (self self' : MemristorLearningRule M) (x : list Q) (j i : nat) :
  mOja_update M pulse beta self x = Ok self' ->
  input_size M self + output_size M self <= length x ->
  spiked (nth i (firstn (input_size M self) x) 0%Q) = false \/
  spiked (nth j (firstn (output_size M self) (skipn (input_size M self) x)) 0%Q) = false ->
  entry M self' j i = entry M self j i.
Proof.
  intros H Hx Hc. unfold mOja_update in H.
  apply bind_ok in H as (ud & Eud & H). apply bind_ok in H as (mask & Em & H).
  rewrite guarded_loop in H.
  rewrite (for_each_ext _
             (fun self '(j, i) =>
                e <- (d <- getitem ud j i ;; Ok (SNum d)) ;;
                pulse_at M pulse self j i e Same)) in H
    by (intros s0 [j0 i0]; now destruct (getitem ud j0 i0)).
  apply simple_loop_entries in H as (_ & _ & P); [|apply where_NoDup].
  apply find_spikes_post in Em as (Hr & Hcn & Hg);
    [|apply firstn_length_le; lia | apply firstn_length_le; rewrite length_skipn; lia].
  apply (proj2 (P j i)). intros Hin. apply where_In in Hin as (Hj & Hi & Ht).
  rewrite Hr in Hj. rewrite Hcn in Hi. rewrite Hg in Ht by assumption.
  apply andb_true_iff in Ht as [T1 T2]. destruct Hc; congruence.
Qed.

Lemma mOja_untouched_entries_witness :
  exists self',
    mOja_update Z stepper 1 (fresh_rule 2 1) [1; 0; 1]%Q = Ok self' /\
    entry Z self' 0 1 = entry Z (fresh_rule 2 1) 0 1.
Proof.
  destruct (mOja_update Z stepper 1 (fresh_rule 2 1) [1; 0; 1]%Q) as [self'|] eqn:E.
  - exists self'. split; [reflexivity|].
    assert (Hx : input_size Z (fresh_rule 2 1) + output_size Z (fresh_rule 2 1)
                 <= length [1; 0; 1]%Q) by (cbn; lia).
    exact (mOja_untouched_entries Z stepper 1 _ self' _ 0 1 E Hx (or_introl eq_refl)).
  - vm_compute in E. discriminate.
Defined.
End UnsupervisedMore.

Section ThresholdMore.
Import Rules.

(** [update_direction] of [mBCM.__call__] when [x] holds one threshold per
    output neuron. *)
Lemma mBCM_direction (post theta : list Q) (n : nat) :
  length post = n -> length theta = n ->
  broadcast1 0%Q 0%Q Qminus post theta
    = Ok (map (fun k => (nth (bidx n k) post 0 - nth (bidx n k) theta 0)%Q) (seq 0 n)).
Proof.
  intros Hp Ht. unfold broadcast1. rewrite Hp, Ht, bdim_same. reflexivity.
Qed.

Lemma getitem1_map_seq {A : Type} (f : nat -> A) (n j : nat) (d : A) :
  getitem1 (map f (seq 0 n)) j = Ok d -> j < n /\ d = f j.
Proof.
  unfold getitem1. destruct (nth_error (map f (seq 0 n)) j) as [v|] eqn:E; [|discriminate].
  intros H; injection H as <-.
  assert (Hj : j < length (map f (seq 0 n))) by (apply nth_error_Some; congruence).
  rewrite length_map, length_seq in Hj.
  split; [exact Hj|].
  apply (nth_error_nth _ _ (f 0)) in E. rewrite map_nth, seq_nth in E by exact Hj.
  now rewrite <- E.
Qed.

(** [mBCM.__call__], with one threshold per output neuron: an entry whose
    input and output neurons both spiked receives one pulse whose signal is
    [post[j] - theta[j]], in which neither the learning rate, nor the time
    step, nor the input activity appears; every other entry keeps its
    device and its weight. *)
Theorem mBCM_signal
      (M : Type) (pulse : M -> signal -> method -> M * Q)
      (self self' : MemristorLearningRule M) (x : list Q) (j i : nat) :
  mBCM_update M pulse self x = Ok self' ->
  length x = input_size M self + output_size M self + output_size M self ->
  let pre := firstn (input_size M self) x in
  let post := firstn (output_size M self) (skipn (input_size M self) x) in
  let theta := skipn (input_size M self + output_size M self) x in
  (j < output_size M self -> i < input_size M self ->
   spiked (nth i pre 0%Q) = true -> spiked (nth j post 0%Q) = true ->
   entry M self' j i =
     pulse (get (memristors M self) j i) (SNum (nth j post 0 - nth j theta 0)%Q) Same) /\
  (spiked (nth i pre 0%Q) = false \/ spiked (nth j post 0%Q) = false ->
   entry M self' j i = entry M self j i).
Proof.
  intros H Hx pre post theta. unfold mBCM_update in H.
  fold pre post theta in H.
  assert (Hpre : length pre = input_size M self) by (apply firstn_length_le; lia).
  assert (Hpost : length post = output_size M self)
    by (apply firstn_length_le; rewrite length_skipn; lia).
  assert (Htheta : length theta = output_size M self)
    by (unfold theta; rewrite length_skipn; lia).
  rewrite (mBCM_direction post theta _ Hpost Htheta) in H. cbn [bind] in H.
  apply bind_ok in H as (u & _ & H). apply bind_ok in H as (mask & Em & H).
  rewrite guarded_loop in H.
  set (ud := map _ (seq 0 (output_size M self))) in H.
  rewrite (for_each_ext _
             (fun self '(j, i) =>
                e <- (d <- getitem1 ud j ;; Ok (SNum d)) ;;
                pulse_at M pulse self j i e Same)) in H
    by (intros s0 [j0 i0]; now destruct (getitem1 ud j0)).
  apply simple_loop_entries in H as (_ & _ & P); [|apply where_NoDup].
  apply find_spikes_post in Em as (Hr & Hcn & Hg); [|exact Hpre|exact Hpost].
  destruct (P j i) as [Pin Pout]. split.
  - intros Hj Hi Hsi Hsj. destruct Pin as (e & He & Hp).
    + apply where_In. rewrite Hr, Hcn, Hg by assumption. now rewrite Hsi, Hsj.
    + apply bind_ok in He as (d & Ed & He). injection He as <-.
      apply getitem1_map_seq in Ed as (_ & ->).
      rewrite (bidx_lt _ _ Hj) in Hp. exact Hp.
  - intros Hc. apply Pout. intros Hin. apply where_In in Hin as (Hj & Hi & Ht).
    rewrite Hr in Hj. rewrite Hcn in Hi. rewrite Hg in Ht by assumption.
    apply andb_true_iff in Ht as [T1 T2]. destruct Hc; congruence.
Qed.

Lemma mBCM_signal_witness :
  exists self',
    mBCM_update Z stepper (fresh_rule 2 1) [1; 0; 1; 3]%Q = Ok self' /\
    entry Z self' 0 0 = stepper 0 (SNum (1 - 3)%Q) Same /\
    entry Z self' 0 1 = entry Z (fresh_rule 2 1) 0 1.
Proof.
  destruct (mBCM_update Z stepper (fresh_rule 2 1) [1; 0; 1; 3]%Q) as [self'|] eqn:E.
  - exists self'. split; [reflexivity|].
    assert (Hx : length [1; 0; 1; 3]%Q
                 = input_size Z (fresh_rule 2 1) + output_size Z (fresh_rule 2 1)
                   + output_size Z (fresh_rule 2 1)) by reflexivity.
    split.
    + apply (proj1 (mBCM_signal Z stepper _ self' _ 0 0 E Hx));
        [cbn; lia | cbn; lia | reflexivity | reflexivity].
    + apply (proj2 (mBCM_signal Z stepper _ self' _ 0 1 E Hx)). left. reflexivity.
  - vm_compute in E. discriminate.
Defined.

(** [mBCM.__call__] needs its thresholds: when the part of [x] behind the
    two activities holds neither one threshold per output neuron nor a
    single one, and there is more than one output neuron, the subtraction
    [output_activities - theta] that computes [update_direction] raises
    [ValueError], and so does the step. *)
Theorem mBCM_threshold_shape
      (M : Type) (pulse : M -> signal -> method -> M * Q)
      (self : MemristorLearningRule M) (x : list Q) :
  input_size M self + output_size M self <= length x ->
  length x - (input_size M self + output_size M self) <> output_size M self ->
  length x - (input_size M self + output_size M self) <> 1 ->
  output_size M self <> 1 ->
  broadcast1 0%Q 0%Q Qminus
    (firstn (output_size M self) (skipn (input_size M self) x))
    (skipn (input_size M self + output_size M self) x) = Raise ValueError /\
  mBCM_call M pulse self x = Raise ValueError.
Proof.
  intros Hx H1 H2 H3.
  assert (Hb : broadcast1 0%Q 0%Q Qminus
                 (firstn (output_size M self) (skipn (input_size M self) x))
                 (skipn (input_size M self + output_size M self) x) = Raise ValueError).
  { unfold broadcast1.
    rewrite firstn_length_le by (rewrite length_skipn; lia). rewrite length_skipn.
    unfold bdim.
    destruct (Nat.eqb_spec (output_size M self)
                (length x - (input_size M self + output_size M self))) as [E|_];
      [symmetry in E; contradiction|].
    destruct (Nat.eqb_spec (output_size M self) 1) as [E|_]; [contradiction|].
    destruct (Nat.eqb_spec (length x - (input_size M self + output_size M self)) 1) as [E|_];
      [contradiction|].
    reflexivity. }
  split; [exact Hb|].
  unfold mBCM_call, mBCM_update. rewrite Hb. reflexivity.
Qed.

Lemma mBCM_threshold_shape_witness :
  input_size Z (fresh_rule 1 2) + output_size Z (fresh_rule 1 2) <= length [1; 1; 1]%Q /\
  mBCM_call Z stepper (fresh_rule 1 2) [1; 1; 1]%Q = Raise ValueError.
Proof.
  assert (Hx : input_size Z (fresh_rule 1 2) + output_size Z (fresh_rule 1 2)
               <= length [1; 1; 1]%Q) by (cbn; lia).
  split; [exact Hx|].
  apply (proj2 (mBCM_threshold_shape Z stepper (fresh_rule 1 2) [1; 1; 1]%Q Hx
                  ltac:(cbn; lia) ltac:(cbn; lia) ltac:(cbn; lia))).
Defined.
End ThresholdMore.

Section SupervisedMore.
Import Rules.

Lemma skipn_last {A : Type} (d : A) (n : nat) : forall l : list A,
  length l = S n -> skipn n l = [nth n l d].
Proof.
  induction n as [|n IH]; intros [|a l] H; try discriminate.
  - destruct l; [reflexivity | discriminate].
  - cbn. apply IH. now injection H.
Qed.

Lemma pydiv_nonzero (q : Q) (n : nat) :
  n <> 0 -> pydiv q (inject_Z (Z.of_nat n)) = Ok (q / inject_Z (Z.of_nat n))%Q.
Proof.
  intros Hn. unfold pydiv.
  destruct (Qeq_bool (inject_Z (Z.of_nat n)) 0) eqn:E; [|reflexivity].
  apply Qeq_bool_eq in E. unfold Qeq in E. cbn in E. lia.
Qed.

(** A well-formed step of [mPES]: with at least one input, one error value
    behind the input activities, one encoder per output neuron and weights
    and devices of shape (outputs, inputs), [mPES.__call__] returns one
    output per output neuron, keeps the sizes and shapes of the rule, and
    [get_error_signal] then returns the error value, or [0] when its
    magnitude is at most [1e-5]. *)
Theorem mPES_call_returns
      (M : Type) (pulse : M -> signal -> method -> M * Q) (empty_truth : res bool)
      (encoders : mat Q) (self : MemristorLearningRule M) (x : list Q) :
  input_size M self <> 0 ->
  length x = S (input_size M self) ->
  nrows encoders = output_size M self -> ncols encoders = 1 ->
  nrows (weights M self) = output_size M self ->
  ncols (weights M self) = input_size M self ->
  nrows (memristors M self) = output_size M self ->
  ncols (memristors M self) = input_size M self ->
  exists out self',
    mPES_call M pulse empty_truth encoders self x = Ok (out, self') /\
    length out = output_size M self /\
    same_frame M self self' /\
    get_error_signal M self' =
      Some (if gt (Qabs (nth (input_size M self) x 0%Q)) (1 # 100000)
            then ErrArray [nth (input_size M self) x 0%Q] else ErrZero).
Proof.
  intros Hn Hx He1 He2 Hw1 Hw2 Hm1 Hm2.
  destruct (mPES_update_returns M pulse empty_truth encoders self x
              Hn Hx He1 He2 Hw1 Hw2 Hm1 Hm2) as [self' Hu].
  pose proof Hu as Hu'.
  apply pes_update_entries in Hu' as (F & (error & Eerr & L) & _); [|lia].
  rewrite (skipn_last 0%Q _ _ Hx), squash_error_single in Eerr. injection Eerr as <-.
  destruct F as (_ & _ & _ & _ & Fr & Fc & _ & _).
  unfold mPES_call. rewrite Hu. cbn [bind]. unfold dot.
  rewrite Fc, Hw2, firstn_length_le, Nat.eqb_refl by lia. cbn [bind].
  eexists _, self'. split; [reflexivity|].
  split; [now rewrite length_map, length_seq, Fr|].
  split; [|exact L].
  apply pes_update_entries in Hu as (F & _); [exact F | lia].
Qed.

Lemma mPES_call_returns_witness :
  exists out self',
    mPES_call Z stepper (Ok false) (of_rows 0%Q [[1%Q]]) (fresh_rule 2 1) [1; 0; 1]%Q
      = Ok (out, self') /\
    length out = output_size Z (fresh_rule 2 1) /\
    get_error_signal Z self' = Some (ErrArray [1%Q]).
Proof.
  assert (Hn : input_size Z (fresh_rule 2 1) <> 0) by discriminate.
  destruct (mPES_call_returns Z stepper (Ok false) (of_rows 0%Q [[1%Q]]) (fresh_rule 2 1)
              [1; 0; 1]%Q Hn eq_refl eq_refl eq_refl eq_refl eq_refl eq_refl eq_refl)
    as (out & self' & Hc & Hl & _ & He).
  exists out, self'. split; [exact Hc|]. split; [exact Hl | exact He].
Defined.

(** What [mPES.__call__] raises on a single error value: without any input
    the scale factor divides by zero, whatever the error; with inputs and
    an error above the threshold, encoders that do not have exactly one
    column make [np.dot] raise [ValueError]. *)
Theorem mPES_call_error_modes
      (M : Type) (pulse : M -> signal -> method -> M * Q) (empty_truth : res bool)
      (encoders : mat Q) (self : MemristorLearningRule M) (x : list Q) (e : Q) :
  skipn (input_size M self) x = [e] ->
  (input_size M self = 0 ->
   mPES_call M pulse empty_truth encoders self x = Raise ZeroDivisionError) /\
  (input_size M self <> 0 -> gt (Qabs e) (1 # 100000) = true -> ncols encoders <> 1 ->
   mPES_call M pulse empty_truth encoders self x = Raise ValueError).
Proof.
  intros Hs. unfold mPES_call, mPES_update.
  rewrite Hs, squash_error_single. cbn [bind]. split.
  - intros H0. rewrite H0. reflexivity.
  - intros Hn Hg Hc. rewrite Hg, pydiv_nonzero by exact Hn. cbn [bind].
    unfold mPES_local_error, dot. cbn [length].
    destruct (Nat.eqb_spec (ncols encoders) 1) as [E|_]; [contradiction | reflexivity].
Qed.

Lemma mPES_call_error_modes_witness :
  skipn (input_size Z (fresh_rule 0 1)) [1%Q] = [1%Q] /\
  mPES_call Z stepper (Ok false) (of_rows 0%Q [[1%Q]]) (fresh_rule 0 1) [1%Q]
    = Raise ZeroDivisionError /\
  mPES_call Z stepper (Ok false) (of_rows 0%Q [[1; 1]]%Q) (fresh_rule 1 1) [1; 1]%Q
    = Raise ValueError.
Proof.
  split; [reflexivity|]. split.
  - exact (proj1 (mPES_call_error_modes Z stepper (Ok false) (of_rows 0%Q [[1%Q]])
                    (fresh_rule 0 1) [1%Q] 1%Q eq_refl) eq_refl).
  - apply (proj2 (mPES_call_error_modes Z stepper (Ok false) (of_rows 0%Q [[1; 1]]%Q)
                    (fresh_rule 1 1) [1; 1]%Q 1%Q eq_refl));
      [discriminate | reflexivity | discriminate].
Defined.
End SupervisedMore.

Section FrameMore.
Import Rules.
Variable M : Type.
Variable pulse : M -> signal -> method -> M * Q.

Local Abbreviation Rule := (MemristorLearningRule M).

(** The attributes no pulse writes. *)
Local Abbreviation kept := (fun self self' : Rule =>
  same_frame M self self' /\ last_error M self' = last_error M self).

Lemma kept_refl (self : Rule) : kept self self.
Proof. split; [apply same_frame_refl | reflexivity]. Qed.

Lemma kept_trans (s1 s2 s3 : Rule) : kept s1 s2 -> kept s2 s3 -> kept s1 s3.
Proof.
  intros [F1 L1] [F2 L2]. split; [exact (same_frame_trans M _ _ _ F1 F2) | congruence].
Qed.

Lemma pulse_at_kept (self self' : Rule) j i s m :
  pulse_at M pulse self j i s m = Ok self' -> kept self self'.
Proof. intros H. apply pulse_at_ok in H as (F & L & _). auto. Qed.

Lemma for_each_kept {A : Type} (body : Rule -> A -> res Rule) (l : list A) :
  (forall s a s', body s a = Ok s' -> kept s s') ->
  forall s s', for_each body l s = Ok s' -> kept s s'.
Proof.
  intros Hb. induction l as [|a l IH]; intros s s' H.
  - cbn in H. injection H as <-. apply kept_refl.
  - cbn [for_each] in H. apply bind_ok in H as (s1 & E & H).
    exact (kept_trans _ _ _ (Hb _ _ _ E) (IH _ _ H)).
Qed.

Lemma mHopfieldHebbian_update_kept (self self' : Rule) (x : list Q) :
  mHopfieldHebbian_update M pulse self x = Ok self' -> kept self self'.
Proof.
  unfold mHopfieldHebbian_update. intros H.
  apply bind_ok in H as (mask & _ & H). rewrite guarded_loop in H.
  revert H. apply for_each_kept. intros s [j i] s' H.
  destruct (negb (i =? j)); [|injection H as <-; apply kept_refl].
  apply bind_ok in H as (b1 & _ & H). apply bind_ok in H as (s1 & E1 & H).
  apply bind_ok in H as (b2 & _ & H).
  exact (kept_trans _ _ _ (pulse_at_kept _ _ _ _ _ _ E1) (pulse_at_kept _ _ _ _ _ _ H)).
Qed.

Lemma mOja_update_kept (beta : Q) (self self' : Rule) (x : list Q) :
  mOja_update M pulse beta self x = Ok self' -> kept self self'.
Proof.
  unfold mOja_update. intros H.
  apply bind_ok in H as (ud & _ & H). apply bind_ok in H as (mask & _ & H).
  rewrite guarded_loop in H.
  revert H. apply for_each_kept. intros s [j i] s' H.
  apply bind_ok in H as (d & _ & H). exact (pulse_at_kept _ _ _ _ _ _ H).
Qed.

Lemma mBCM_update_kept (self self' : Rule) (x : list Q) :
  mBCM_update M pulse self x = Ok self' -> kept self self'.
Proof.
  unfold mBCM_update. intros H.
  apply bind_ok in H as (ud & _ & H). apply bind_ok in H as (u & _ & H).
  apply bind_ok in H as (mask & _ & H). rewrite guarded_loop in H.
  revert H. apply for_each_kept. intros s [j i] s' H.
  apply bind_ok in H as (d & _ & H). exact (pulse_at_kept _ _ _ _ _ _ H).
Qed.

Lemma mPES_update_kept (empty_truth : res bool) (encoders : mat Q)
      (self self' : Rule) (x : list Q) :
  mPES_update M pulse empty_truth encoders self x = Ok self' ->
  same_frame M self self' /\
  exists e, squash_error empty_truth (skipn (input_size M self) x) = Ok e /\
            last_error M self' = Some e.
Proof.
  unfold mPES_update. intros H.
  apply bind_ok in H as (error & Eerr & H). apply bind_ok in H as (a & _ & H).
  apply bind_ok in H as (le & _ & H). apply bind_ok in H as (mask & _ & H).
  rewrite guarded_loop in H.
  assert (K : kept (set_last_error M self error) self').
  { revert H. apply for_each_kept. intros s [j i] s' H.
    apply bind_ok in H as (d & _ & H). exact (pulse_at_kept _ _ _ _ _ _ H). }
  destruct K as [F L]. split; [exact F|]. exists error. split; [exact Eerr | exact L].
Qed.

(** A step of any of the four rules changes nothing but weights, devices
    and the recorded error: the learning rate, the time step, the two sizes
    and the shapes of the weights and of the devices are those of before,
    and the output has one entry per row of the weights.  The three
    unsupervised rules leave the recorded error as it was; [mPES] records
    the error of the step. *)
Theorem call_keeps_frame (empty_truth : res bool) (r : rule)
      (self self' : Rule) (x out : list Q) :
  call M pulse empty_truth r self x = Ok (out, self') ->
  same_frame M self self' /\
  length out = nrows (weights M self) /\
  match r with
  | mPES _ =>
      exists e, squash_error empty_truth (skipn (input_size M self) x) = Ok e /\
                get_error_signal M self' = Some e
  | _ => get_error_signal M self' = get_error_signal M self
  end.
Proof.
  intros H.
  assert (Hout : forall (u : res Rule) v,
            (s <- u ;; o <- dot (weights M s) v ;; Ok (o, s)) = Ok (out, self') ->
            u = Ok self' /\ length out = nrows (weights M self')).
  { intros u v Hb. apply bind_ok in Hb as (s & Eu & Hb).
    apply bind_ok in Hb as (o & Eo & Hb). injection Hb as -> ->.
    split; [exact Eu|]. unfold dot in Eo.
    destruct (ncols (weights M self') =? length v); [|discriminate].
    injection Eo as <-. now rewrite length_map, length_seq. }
  destruct r as [|beta| |encoders]; cbn [call] in H; apply Hout in H as [Hu Hl].
  - apply mHopfieldHebbian_update_kept in Hu as [F L].
    split; [exact F|]. split; [|exact L].
    destruct F as (_ & _ & _ & _ & Fr & _). congruence.
  - apply mOja_update_kept in Hu as [F L].
    split; [exact F|]. split; [|exact L].
    destruct F as (_ & _ & _ & _ & Fr & _). congruence.
  - apply mBCM_update_kept in Hu as [F L].
    split; [exact F|]. split; [|exact L].
    destruct F as (_ & _ & _ & _ & Fr & _). congruence.
  - apply mPES_update_kept in Hu as [F L].
    split; [exact F|]. split; [|exact L].
    destruct F as (_ & _ & _ & _ & Fr & _). congruence.
Qed.
End FrameMore.

Lemma call_keeps_frame_witness :
  exists out self',
    Rules.call Z stepper (Ok false) Rules.mBCM (fresh_rule 2 1) [1; 0; 1; 3]%Q
      = Ok (out, self') /\
    same_frame Z (fresh_rule 2 1) self' /\
    length out = 1 /\
    Rules.get_error_signal Z self' = None.
Proof.
  destruct (Rules.call Z stepper (Ok false) Rules.mBCM (fresh_rule 2 1) [1; 0; 1; 3]%Q)
    as [[out self']|] eqn:E.
  - exists out, self'. split; [reflexivity|].
    exact (call_keeps_frame Z stepper (Ok false) Rules.mBCM _ self' _ out E).
  - vm_compute in E. discriminate.
Defined.
